(** * point_cloud_transformer.py: the [Logic] class, embedded and verified

    The program is Python 2 (PyQt4, [str] is a byte string, a file opened
    with mode ['rb'] yields [str] lines).  The embedding covers the class
    [Logic]: [validate_subsample], [_xlsx_path], [_create_xlsx],
    [_clean_cloud] and [transform].  The dialogs are not modelled.

    Layout: byte strings and the [str] methods the code calls; exceptions;
    the file store; [os.path] (POSIX flavour); floats; the data frame and
    its sampler; the class [Logic]; then the properties. *)

From Stdlib Require Import Ascii String QArith Qround Qpower Lqa.
From stdpp Require Import gmap strings list sorting.

Local Open Scope Z_scope.
Local Open Scope list_scope.

(** ** Byte strings *)

Abbreviation bytes := (list ascii).

(** A literal, written as a Rocq string (which has no escapes: the line
    terminators are spelled [CR] and [LF]). *)
Definition b (s : string) : bytes := list_ascii_of_string s.

Definition CR : ascii := "013"%char.
Definition LF : ascii := "010"%char.
Definition COMMA : ascii := ","%char.
Definition HASH : ascii := "#"%char.
Definition SLASH : ascii := "/"%char.
Definition DOT : ascii := "."%char.

(** [s.split(sep)] for a one-character separator: the fields between the
    separators, always at least one. *)
Fixpoint split (sep : ascii) (s : bytes) : list bytes :=
  match s with
  | [] => [[]]
  | c :: s' =>
      if decide (c = sep) then [] :: split sep s'
      else match split sep s' with
           | [] => [[c]]
           | f :: fs => (c :: f) :: fs
           end
  end.

(** [s.replace('\r\n', '')]: every occurrence of the two-character string
    is dropped, scanning from the left. *)
Fixpoint replace_crlf (s : bytes) : bytes :=
  match s with
  | [] => []
  | c :: s' =>
      match s' with
      | d :: s'' =>
          if decide (c = CR ∧ d = LF) then replace_crlf s''
          else c :: replace_crlf s'
      | [] => [c]
      end
  end.

(** Iterating a file opened in binary mode: the content is cut after each
    ['\n']; every line keeps its terminator, the last line may have none,
    and no line is empty. *)
Fixpoint file_lines (content : bytes) : list bytes :=
  match content with
  | [] => []
  | c :: rest =>
      if decide (c = LF) then [c] :: file_lines rest
      else match file_lines rest with
           | [] => [[c]]
           | l :: ls => (c :: l) :: ls
           end
  end.

(** ** Exceptions *)

Inductive exn : Set := IOError | IndexError | ValueError | OverflowError.

Inductive result (A : Type) : Type :=
| Ok (a : A)
| Raise (e : exn).
Arguments Ok {A} a.
Arguments Raise {A} e.

#[global] Instance result_ret : MRet result := λ A a, Ok a.
#[global] Instance result_bind : MBind result := λ A B f m,
  match m with
  | Ok a => f a
  | Raise e => Raise e
  end.
#[global] Instance result_fmap : FMap result := λ A B f m,
  match m with
  | Ok a => Ok (f a)
  | Raise e => Raise e
  end.

(** [l[i]] on a Python list or string: [IndexError] out of range. *)
Definition getitem {A} (l : list A) (i : nat) : result A :=
  match l !! i with
  | Some x => Ok x
  | None => Raise IndexError
  end.

(** [l[i] = x]: [IndexError] out of range, otherwise the update in place. *)
Definition setitem {A} (l : list A) (i : nat) (x : A) : result (list A) :=
  if decide (i < length l)%nat then Ok (<[i := x]> l) else Raise IndexError.

(** ** The file store *)

(** A row of the cleaned data is a list of text fields; a cell of a data
    frame is a text field or missing; a sheet is what [to_excel] writes. *)
Abbreviation row := (list bytes).
Abbreviation cell := (option bytes).
Abbreviation sheet := (list (list cell)).

(** [files]: the text files, by path.  [books]: the workbooks written by
    [to_excel], by path (their byte encoding is not modelled). *)
Record world : Type := World {
  files : gmap bytes bytes;
  books : gmap bytes sheet
}.

(** [open(filepath, 'rb')] and reading the whole content. *)
Definition open_rb (w : world) (filepath : bytes) : result bytes :=
  match files w !! filepath with
  | Some content => Ok content
  | None => Raise IOError
  end.

(** ** [os.path] (posixpath.py and genericpath.py of Python 2.7) *)

(** [s.rfind(c)]: the index of the last [c], or [-1]. *)
Fixpoint rfind (c : ascii) (s : bytes) : Z :=
  match s with
  | [] => -1
  | d :: s' =>
      let r := rfind c s' in
      if decide (r = -1) then (if decide (d = c) then 0 else -1) else r + 1
  end.

(** [s.rstrip(c)]: the trailing [c]s removed. *)
Fixpoint rstrip (c : ascii) (s : bytes) : bytes :=
  match s with
  | [] => []
  | d :: s' =>
      match rstrip c s' with
      | [] => if decide (d = c) then [] else [d]
      | t => d :: t
      end
  end.

(** [s.startswith(c)] and [s.endswith(c)] for a one-character [c]. *)
Definition startswith (c : ascii) (s : bytes) : bool :=
  match s with
  | d :: _ => bool_decide (d = c)
  | [] => false
  end.

Definition endswith (c : ascii) (s : bytes) : bool :=
  match last s with
  | Some d => bool_decide (d = c)
  | None => false
  end.

Module posixpath.

(** [i = p.rfind('/') + 1; head, tail = p[:i], p[i:]]; the trailing
    slashes of [head] are stripped unless [head] is all slashes. *)
Definition split (p : bytes) : bytes * bytes :=
  let i := Z.to_nat (rfind SLASH p + 1) in
  let head := take i p in
  let tail := drop i p in
  if decide (head ≠ [] ∧ head ≠ replicate (length head) SLASH)
  then (rstrip SLASH head, tail)
  else (head, tail).

(** The [while] loop of [genericpath._splitext]: [n] positions from
    [filenameIndex] on are tried; [true] as soon as one is not a dot. *)
Fixpoint splitext_loop (p : bytes) (filenameIndex n : nat) : bool :=
  match n with
  | O => false
  | S n' =>
      match p !! filenameIndex with
      | Some c =>
          if decide (c ≠ DOT) then true
          else splitext_loop p (S filenameIndex) n'
      | None => false
      end
  end.

(** [genericpath._splitext(p, '/', None, '.')]. *)
Definition splitext (p : bytes) : bytes * bytes :=
  let sepIndex := rfind SLASH p in
  let dotIndex := rfind DOT p in
  if decide (dotIndex > sepIndex) then
    let filenameIndex := sepIndex + 1 in
    if splitext_loop p (Z.to_nat filenameIndex)
         (Z.to_nat (dotIndex - filenameIndex))
    then (take (Z.to_nat dotIndex) p, drop (Z.to_nat dotIndex) p)
    else (p, [])
  else (p, []).

(** [join(a, b)] with one component [b]. *)
Definition join (a b0 : bytes) : bytes :=
  if startswith SLASH b0 then b0
  else if bool_decide (a = []) || endswith SLASH a then a ++ b0
  else a ++ SLASH :: b0.

End posixpath.

(** ** Floats

    A Python float is a binary64 number.  Its finite values are rationals;
    the product of two finite floats is the exact product rounded to a
    representable number by [rnd], which is kept abstract and constrained
    by the properties of round-to-nearest that the proofs use (section
    [Sampling]); [binary64] below is such a rounding.  Overflow of a
    product and the sign of zero are not modelled. *)

Inductive pyfloat : Type :=
| Fin (q : Q)
| Inf (negative : bool)
| NaN.

Definition float_lt (x y : pyfloat) : bool :=
  match x, y with
  | Fin p, Fin q => negb (Qle_bool q p)
  | Fin _, Inf negative => negb negative
  | Inf negative, Fin _ => negative
  | Inf n1, Inf n2 => n1 && negb n2
  | NaN, _ | _, NaN => false
  end.

Definition float_le (x y : pyfloat) : bool :=
  match x, y with
  | Fin p, Fin q => Qle_bool p q
  | Fin _, Inf negative => negb negative
  | Inf negative, Fin _ => negative
  | Inf n1, Inf n2 => n1 || negb n2
  | NaN, _ | _, NaN => false
  end.

(** Rounding a rational to the nearest integer, halves away from zero. *)
Definition round_half_away (q : Q) : Z :=
  if Qle_bool 0 q then Qfloor (q + (1 # 2)) else Qceiling (q - (1 # 2)).

(** The builtin [round(x)] of Python 2: a float again. *)
Definition py_round (x : pyfloat) : pyfloat :=
  match x with
  | Fin q => Fin (inject_Z (round_half_away q))
  | _ => x
  end.

(** [int(x)] on a float: truncation; infinities and NaN raise. *)
Definition py_int (x : pyfloat) : result Z :=
  match x with
  | Fin q => Ok (if Qle_bool 0 q then Qfloor q else Qceiling q)
  | Inf _ => Raise OverflowError
  | NaN => Raise ValueError
  end.

Section Arithmetic.

(** Rounding of an exact result to binary64. *)
Variable rnd : Q → Q.

(** The conversion of an [int] operand, as in [frac * axis_length]. *)
Definition float_of_int (n : Z) : pyfloat := Fin (rnd (inject_Z n)).

Definition float_mul (x y : pyfloat) : pyfloat :=
  match x, y with
  | Fin p, Fin q => Fin (rnd (p * q))
  | Fin p, Inf negative | Inf negative, Fin p =>
      if Qeq_bool p 0 then NaN
      else Inf (xorb negative (negb (Qle_bool 0 p)))
  | Inf n1, Inf n2 => Inf (xorb n1 n2)
  | NaN, _ | _, NaN => NaN
  end.

End Arithmetic.

(** ** pandas and numpy *)

Module pd.

(** A list as a frame row of [width] columns: missing cells at the end. *)
Definition fill (width : nat) (r : row) : list cell :=
  (Some <$> r) ++ replicate (width - length r) None.

(** [pd.DataFrame(data)] for a list of lists: one frame row per list, as
    many columns as the longest list has, shorter lists filled up. *)
Definition DataFrame (data : list row) : sheet :=
  let width := max_list (length <$> data) in
  fill width <$> data.

(** [df.take(locs)]: the rows at the given positions, in that order. *)
Fixpoint take_rows (df : sheet) (locs : list nat) : result sheet :=
  match locs with
  | [] => Ok []
  | i :: locs' =>
      r ← getitem df i;
      rs ← take_rows df locs';
      Ok (r :: rs)
  end.

Section Sample.

Variable rnd : Q → Q.

(** [RandomState(seed).permutation(n)]: the shuffled [range(n)]. *)
Variable permutation : Z → nat → list nat.

(** [RandomState(seed).choice(a, size=size, replace=False)] (NumPy 1.16,
    where an empty population is accepted when nothing is drawn). *)
Definition choice (seed : Z) (a size : nat) : result (list nat) :=
  if decide (a < size)%nat then Raise ValueError
  else Ok (take size (permutation seed a)).

(** [df.sample(frac=frac, random_state=seed)]. *)
Definition sample (df : sheet) (frac : pyfloat) (seed : Z) : result sheet :=
  let axis_length := length df in
  n ← py_int (py_round (float_mul rnd frac (float_of_int rnd (Z.of_nat axis_length))));
  if decide (n < 0) then Raise ValueError
  else
    locs ← choice seed axis_length (Z.to_nat n);
    take_rows df locs.

End Sample.

(** [df.to_excel(path, header=False, index=False)]: the rows of the frame
    become the sheet stored at [path]. *)
Definition to_excel (w : world) (path : bytes) (df : sheet) : world :=
  World (files w) (<[path := df]> (books w)).

End pd.

(** ** The class [Logic] *)

Module Logic.

Section Platform.

(** [float(x)] on text: the value, or [None] for the [ValueError] that
    text which is no number raises. *)
Variable float_of_str : bytes → option pyfloat.

Variable rnd : Q → Q.
Variable permutation : Z → nat → list nat.

(** The result is the float, or [None] (Python's [None]). *)
Definition validate_subsample (x : bytes) : option pyfloat :=
  match float_of_str x with
  | None =>
      (* No input received *)
      None
  | Some x' =>
      if float_lt (Fin 0) x' && float_le x' (Fin 1) then Some x' else None
  end.

Definition _xlsx_path (filepath : bytes) : bytes :=
  let '(head, tail) := posixpath.split filepath in
  let filename := (posixpath.splitext tail).1 in
  posixpath.join head (filename ++ b ".xlsx").

(** [seed] is the value that [random.randint(0, 10)] returns. *)
Definition _create_xlsx (w : world) (filepath : bytes) (data : list row)
    (subsample : pyfloat) (seed : Z) : result world :=
  let df := pd.DataFrame data in
  df' ← pd.sample rnd permutation df subsample seed;
  Ok (pd.to_excel w (_xlsx_path filepath) df').

(** The body of the [for] loop, on one line: the container after it. *)
Definition clean_line (line : bytes) (container : list row)
  : result (list row) :=
  c ← getitem line 0;
  if decide (c = HASH) then
    (* Ignore indication of noisey data *)
    Ok container
  else
    let row0 := split COMMA line in
    z ← getitem row0 2;
    row1 ← setitem row0 2 (replace_crlf z);
    Ok (container ++ [row1]).

(** The loop: lines in file order, the container threaded through. *)
Fixpoint clean_lines (lines : list bytes) (container : list row)
  : result (list row) :=
  match lines with
  | [] => Ok container
  | line :: rest =>
      container' ← clean_line line container;
      clean_lines rest container'
  end.

Definition _clean_cloud (w : world) (filepath : bytes)
    (container : list row) : result (list row) :=
  content ← open_rb w filepath;
  clean_lines (file_lines content) container.

(** The container after cleaning and the store after writing. *)
Definition transform (w : world) (filepath : bytes) (container : list row)
    (subsample : pyfloat) (seed : Z) : result (list row * world) :=
  container' ← _clean_cloud w filepath container;
  w' ← _create_xlsx w filepath container' subsample seed;
  Ok (container', w').

End Platform.

End Logic.

(** ** The application [PointCloudTransformer] *)

(** The truth value of a float, as in [if self.value:]: only a zero is
    false. *)
Definition float_bool (x : pyfloat) : bool :=
  match x with
  | Fin q => negb (Qeq_bool q 0)
  | _ => true
  end.

Module PointCloudTransformer.

(** What a run leaves behind: [self.points], the file store, and whether
    the warning box of [input_error] was shown. *)
Record state : Type := State {
  points : list row;
  store : world;
  warned : bool
}.

Section Platform.

Variable float_of_str : bytes → option pyfloat.
Variable rnd : Q → Q.
Variable permutation : Z → nat → list nat.

(** [selected] is the file picked in the file dialog and [entered] the
    text of the line edit of the settings dialog; [None] stands for a
    dialog that was dismissed ([exec_()] false).  [self.value] is [None]
    (false) or a float. *)
Definition start (w : world) (points0 : list row)
    (selected entered : option bytes) (seed : Z) : result state :=
  match selected with
  | Some filepath =>
      match entered with
      | Some text =>
          match Logic.validate_subsample float_of_str text with
          | Some value =>
              if float_bool value then
                '(points1, w') ← Logic.transform rnd permutation w filepath
                                   points0 value seed;
                Ok (State points1 w' false)
              else Ok (State points0 w true)
          | None => Ok (State points0 w true)
          end
      | None => Ok (State points0 w false)
      end
  | None => Ok (State points0 w false)
  end.

(** [__init__]: the points start empty, then [start] runs. *)
Definition __init__ (w : world) (selected entered : option bytes) (seed : Z)
  : result state :=
  start w [] selected entered seed.

End Platform.

End PointCloudTransformer.

(** ** Vocabulary of the properties *)

(** A noise line: its first character is ['#']. *)
Definition is_comment (line : bytes) : bool := startswith HASH line.

(** The lines of a file that are not noise lines, in file order. *)
Definition data_lines (content : bytes) : list bytes :=
  filter (λ l, is_comment l = false) (file_lines content).

(** The fields of a line, the third one without its ['\r\n']s. *)
Definition cleaned (line : bytes) : row :=
  alter replace_crlf 2%nat (split COMMA line).

(** A line that the loop body accepts: it has a third field. *)
Definition well_formed (line : bytes) : Prop :=
  (3 ≤ length (split COMMA line))%nat.

#[global] Instance well_formed_dec line : Decision (well_formed line).
Proof. unfold well_formed. apply _. Defined.

(** Carriage returns and newlines occur in [s] only as the pair ['\r\n']. *)
Fixpoint crlf_paired (s : bytes) : bool :=
  match s with
  | [] => true
  | c :: s' =>
      match s' with
      | d :: s'' =>
          if decide (c = CR ∧ d = LF) then crlf_paired s''
          else bool_decide (c ≠ CR ∧ c ≠ LF) && crlf_paired s'
      | [] => bool_decide (c ≠ CR ∧ c ≠ LF)
      end
  end.

(** The third field of a row holds no carriage return and no newline. *)
Definition third_field_bare (r : row) : Prop :=
  ∀ z, r !! 2%nat = Some z → (CR ∉ z) ∧ (LF ∉ z).

(** What [posixpath.split] returns as [head]: all slashes (possibly
    none), or a non-empty string that does not end in a slash. *)
Definition head_shape (h : bytes) : Prop :=
  h = replicate (length h) SLASH ∨ (h ≠ [] ∧ last h ≠ Some SLASH).

(** [sep.join(fields)], the inverse of [split]. *)
Fixpoint join_fields (sep : ascii) (fields : list bytes) : bytes :=
  match fields with
  | [] => []
  | f :: fs =>
      match fs with
      | [] => f
      | _ :: _ => f ++ sep :: join_fields sep fs
      end
  end.

(** The text line of a row: its fields, commas between them, ['\r\n']. *)
Definition text_line (r : row) : bytes := join_fields COMMA r ++ [CR; LF].

(** A content that a further content can follow without joining lines:
    empty, or ended by a newline. *)
Definition closed (content : bytes) : Prop :=
  content = [] ∨ last content = Some LF.

(** ** A platform to run the sampler on

    Round-to-nearest with 53 significant bits, and a generator whose
    shuffle is the reversal: one of the platforms that the properties of
    section [Sampling] cover, used to run the code on concrete inputs. *)

(** Rounding a rational to the nearest integer, halves to the even one. *)
Definition round_half_even (q : Q) : Z :=
  let f := Qfloor q in
  match Qcompare (q - inject_Z f) (1 # 2) with
  | Lt => f
  | Gt => f + 1
  | Eq => if Z.even f then f else f + 1
  end.

(** For [x > 0]: the exponent [e] with [2^e ≤ x < 2^(e+1)]. *)
Definition ilog2 (x : Q) : Z :=
  let k := Z.log2 (Qnum x) - Z.log2 (Zpos (Qden x)) in
  if Qle_bool (2 ^ k) x then k else k - 1.

(** For [x > 0]: the nearest multiple of [2^(e-52)], a number of 53
    significant bits; in lowest terms. *)
Definition round_pos (x : Q) : Q :=
  let t := ilog2 x - 52 in
  Qred (inject_Z (round_half_even (x / 2 ^ t)) * 2 ^ t)%Q.

(** Round to nearest, ties to even, with a significand of 53 bits: the
    rounding of binary64 arithmetic within its exponent range (subnormal
    numbers and overflow are not modelled). *)
Definition binary64 (x : Q) : Q :=
  match Qcompare x 0 with
  | Eq => 0%Q
  | Gt => round_pos x
  | Lt => (- round_pos (- x))%Q
  end.

Definition reversed (seed : Z) (n : nat) : list nat := rev (seq 0 n).

(** ** Decimal literals

    A reader for the literals [digits], [digits.digits], [digits.] and
    [.digits] with an optional sign, giving the float nearest to the
    value: a fragment of what [float] accepts, to run the validator on
    concrete text. *)

Definition digit (c : ascii) : option Z :=
  let n := Z.of_nat (nat_of_ascii c) in
  if decide (48 ≤ n ≤ 57) then Some (n - 48) else None.

Fixpoint digits (acc : Z) (s : bytes) : option Z :=
  match s with
  | [] => Some acc
  | c :: s' => d ← digit c; digits (10 * acc + d) s'
  end.

Definition unsigned_literal (s : bytes) : option Q :=
  match split DOT s with
  | [whole] =>
      if decide (whole = []) then None else inject_Z <$> digits 0 whole
  | [whole; fraction] =>
      if decide (whole = [] ∧ fraction = []) then None
      else
        n ← digits 0 (whole ++ fraction);
        Some (inject_Z n / inject_Z (10 ^ Z.of_nat (length fraction)))%Q
  | _ => None
  end.

Definition decimal_literal (s : bytes) : option pyfloat :=
  match s with
  | c :: s' =>
      if decide (c = "-"%char)
      then (λ q, Fin (binary64 (- q))) <$> unsigned_literal s'
      else if decide (c = "+"%char)
      then (λ q, Fin (binary64 q)) <$> unsigned_literal s'
      else (λ q, Fin (binary64 q)) <$> unsigned_literal s
  | [] => None
  end.

(** ** Sample inputs *)

Definition scan_path : bytes := b "/scans/section.txt".

(** Two noise lines and two data lines, ['\r\n'] line endings. *)
Definition scan : bytes :=
  b "#noisy" ++ [CR; LF] ++ b "1.5,2.5,3.5" ++ [CR; LF]
  ++ b "#noisy" ++ [CR; LF] ++ b "4.5,5.5,6.5" ++ [CR; LF].

(** Three data lines, no noise line. *)
Definition clean_scan : bytes :=
  b "1,2,3" ++ [CR; LF] ++ b "4,5,6" ++ [CR; LF] ++ b "7,8,9" ++ [CR; LF].

(** A data line of two fields. *)
Definition short_scan : bytes :=
  b "1,2,3" ++ [CR; LF] ++ b "4,5" ++ [CR; LF].

(** Two noise lines and five data lines, ['\r\n'] on the data lines. *)
Definition five_rows : bytes :=
  b "#a" ++ [LF] ++ b "1,2,3" ++ [CR; LF] ++ b "4,5,6" ++ [CR; LF]
  ++ b "#b" ++ [LF] ++ b "7,8,9" ++ [CR; LF] ++ b "10,11,12" ++ [CR; LF]
  ++ b "13,14,15" ++ [CR; LF].

(** A data line, then a blank line. *)
Definition blank_scan : bytes := b "1,2,3" ++ [CR; LF] ++ [CR; LF].

(** Noise lines only. *)
Definition noise_scan : bytes := b "#a" ++ [CR; LF] ++ b "#b" ++ [LF].

(** Two scans and, in a third file, the one followed by the other. *)
Definition shelf : world :=
  World {[ b "/scans/a.txt" := scan;
           b "/scans/b.txt" := clean_scan;
           b "/scans/ab.txt" := scan ++ clean_scan ]} ∅.

Definition disk (content : bytes) : world :=
  World {[ scan_path := content ]} ∅.

Example split_three : split COMMA (b "1,2,3") = [b "1"; b "2"; b "3"].
Proof. reflexivity. Qed.

Example split_empty : split COMMA [] = [[]].
Proof. reflexivity. Qed.

Example file_lines_crlf :
  file_lines (b "#x" ++ [CR; LF] ++ b "1,2,3" ++ [CR; LF] ++ b "4,5,6")
  = [b "#x" ++ [CR; LF]; b "1,2,3" ++ [CR; LF]; b "4,5,6"].
Proof. reflexivity. Qed.

Example clean_lines_ex :
  Logic.clean_lines
    [b "#x" ++ [CR; LF]; b "1,2,3" ++ [CR; LF]; b "4,5,6" ++ [LF]] []
  = Ok [[b "1"; b "2"; b "3"]; [b "4"; b "5"; b "6" ++ [LF]]].
Proof. reflexivity. Qed.

(** * Properties *)

(** ** Text *)

Lemma split_length sep s : length (split sep s) = S (count_occ ascii_dec s sep).
Proof.
  induction s as [|c s IH]; [done|].
  cbn [split count_occ]. destruct (ascii_dec c sep) as [->|Hne].
  - rewrite decide_True by done. cbn. by rewrite IH.
  - rewrite decide_False by done.
    destruct (split sep s) as [|f fs]; cbn in *; lia.
Qed.

Lemma file_lines_nonempty content : Forall (λ l, l ≠ []) (file_lines content).
Proof.
  induction content as [|c rest IH]; cbn; [constructor|].
  case_decide.
  - by constructor.
  - destruct (file_lines rest) as [|l ls]; [by repeat constructor|].
    inversion IH; subst. by constructor.
Qed.

(** ** The cleaning loop *)

Lemma clean_line_spec line container :
  line ≠ [] →
  Logic.clean_line line container =
    if is_comment line then Ok container
    else if decide (well_formed line) then Ok (container ++ [cleaned line])
    else Raise IndexError.
Proof.
  intros Hne. destruct line as [|c line]; [done|].
  unfold Logic.clean_line, is_comment, startswith.
  cbn [getitem lookup list_lookup mbind result_bind].
  case_bool_decide; [by rewrite decide_True|].
  rewrite decide_False by done.
  unfold getitem, setitem, cleaned.
  destruct (decide (well_formed (c :: line))) as [Hw|Hw];
    unfold well_formed in Hw;
    destruct (split COMMA (c :: line)) as [|f0 [|f1 [|f2 fs]]];
    cbn in *; try lia; reflexivity.
Qed.

Lemma clean_lines_spec lines container :
  Forall (λ l, l ≠ []) lines →
  Logic.clean_lines lines container =
    if decide (Forall well_formed (filter (λ l, is_comment l = false) lines))
    then Ok (container
             ++ (cleaned <$> filter (λ l, is_comment l = false) lines))
    else Raise IndexError.
Proof.
  intros Hne. revert container.
  induction Hne as [|line lines Hline _ IH]; intros container.
  - cbn. by rewrite app_nil_r.
  - cbn [Logic.clean_lines]. rewrite clean_line_spec by done.
    rewrite filter_cons. destruct (is_comment line) eqn:Hc.
    + rewrite (decide_False (P := true = false)) by done. cbn. apply IH.
    + rewrite (decide_True (P := false = false)) by done.
      destruct (decide (well_formed line)) as [Hw|Hw].
      * cbn. rewrite IH. case_decide as Hall.
        -- rewrite decide_True by (by constructor).
           by rewrite <- app_assoc.
        -- rewrite decide_False; [done|]. by inversion 1.
      * cbn. rewrite decide_False; [done|]. by inversion 1.
Qed.

Lemma clean_cloud_spec w filepath container content :
  files w !! filepath = Some content →
  Logic._clean_cloud w filepath container =
    if decide (Forall well_formed (data_lines content))
    then Ok (container ++ (cleaned <$> data_lines content))
    else Raise IndexError.
Proof.
  intros Hf. unfold Logic._clean_cloud, open_rb. rewrite Hf. cbn.
  apply clean_lines_spec, file_lines_nonempty.
Qed.

Lemma clean_cloud_inv w filepath container content rows :
  files w !! filepath = Some content →
  Logic._clean_cloud w filepath container = Ok rows →
  Forall well_formed (data_lines content)
  ∧ rows = container ++ (cleaned <$> data_lines content).
Proof.
  intros Hf. rewrite (clean_cloud_spec _ _ _ _ Hf).
  case_decide; [|done]. by intros [= <-].
Qed.

Lemma data_lines_nonempty content : Forall (λ l, l ≠ []) (data_lines content).
Proof.
  unfold data_lines. apply Forall_forall. intros l Hl.
  apply list_elem_of_filter in Hl as [_ Hl].
  revert l Hl. apply Forall_forall, file_lines_nonempty.
Qed.

Lemma filter_idemp {A} (P : A → Prop) `{!∀ x, Decision (P x)} (l : list A) :
  filter P (filter P l) = filter P l.
Proof.
  induction l as [|x l IH]; [done|].
  rewrite filter_cons. case_decide; [|done].
  rewrite filter_cons, decide_True by done. by rewrite IH.
Qed.

(** The positions, in [l], of the elements that a filter keeps. *)
Lemma filter_positions {A} (P : A → Prop) `{!∀ x, Decision (P x)} (l : list A) :
  ∃ idxs : list nat,
    StronglySorted lt idxs
    ∧ Forall2 (λ i x, l !! i = Some x ∧ P x) idxs (filter P l).
Proof.
  induction l as [|x l (idxs & Hs & Hf)].
  - exists []. split; constructor.
  - assert (Hs' : StronglySorted lt (S <$> idxs))
      by (eapply StronglySorted_fmap; [|done]; intros; lia).
    assert (Hf' : Forall2 (λ i y, (x :: l) !! i = Some y ∧ P y)
                    (S <$> idxs) (filter P l))
      by (apply Forall2_fmap_l; eapply Forall2_impl; [done|]; by intros).
    rewrite filter_cons. case_decide.
    + exists (0%nat :: (S <$> idxs)). split.
      * constructor; [done|]. apply Forall_fmap, Forall_forall. intros; cbn; lia.
      * by constructor.
    + by exists (S <$> idxs).
Qed.

(** ** The input cleaner *)

(** C3: whatever the file, a line whose first character is ['#'] adds no
    row to the cleaned dataset: the cleaner behaves on the file as it does
    on the file's other lines alone, and the rows it adds to the container
    are, one for one, the transformed non-['#'] lines. *)
Theorem comment_lines_add_no_row w filepath container content :
  files w !! filepath = Some content →
  Logic._clean_cloud w filepath container
    = Logic.clean_lines (data_lines content) container
  ∧ ∀ rows,
      Logic._clean_cloud w filepath container = Ok rows →
      rows = container ++ (cleaned <$> data_lines content)
      ∧ Forall (λ l, is_comment l = false) (data_lines content).
Proof.
  intros Hf. split.
  - rewrite (clean_cloud_spec _ _ _ _ Hf).
    rewrite clean_lines_spec by apply data_lines_nonempty.
    unfold data_lines. by rewrite filter_idemp.
  - intros rows Hrows.
    destruct (clean_cloud_inv _ _ _ _ _ Hf Hrows) as [_ ->]. split; [done|].
    apply Forall_forall. intros l Hl.
    by apply list_elem_of_filter in Hl as [? _].
Qed.

(** C8: the rows that the cleaner adds to the container come from source
    lines at strictly increasing positions of the file: they keep the
    relative order of their lines. *)
Theorem cleaned_rows_in_file_order w filepath container content rows :
  files w !! filepath = Some content →
  Logic._clean_cloud w filepath container = Ok rows →
  ∃ idxs : list nat,
    StronglySorted lt idxs
    ∧ take (length container) rows = container
    ∧ Forall2 (λ i r, ∃ line, file_lines content !! i = Some line
                              ∧ is_comment line = false
                              ∧ r = cleaned line)
        idxs (drop (length container) rows).
Proof.
  intros Hf Hrows.
  destruct (clean_cloud_inv _ _ _ _ _ Hf Hrows) as [_ ->].
  destruct (filter_positions (λ l, is_comment l = false) (file_lines content))
    as (idxs & Hs & Hp).
  exists idxs. split; [done|]. split; [by rewrite take_app_length|].
  rewrite drop_app_length. apply Forall2_fmap_r.
  eapply Forall2_impl; [exact Hp|]. intros i line [? ?]. by exists line.
Qed.

(** C6: when some non-['#'] line of the file has fewer than three
    comma-separated fields, the cleaner raises [IndexError]; nothing
    catches it, and [transform] raises it too. *)
Theorem short_line_raises_IndexError
    rnd permutation w filepath container content subsample seed :
  files w !! filepath = Some content →
  Exists (λ line, is_comment line = false
                  ∧ (length (split COMMA line) < 3)%nat)
    (file_lines content) →
  Logic._clean_cloud w filepath container = Raise IndexError
  ∧ Logic.transform rnd permutation w filepath container subsample seed
    = Raise IndexError.
Proof.
  intros Hf Hex.
  assert (Hc : Logic._clean_cloud w filepath container = Raise IndexError).
  { rewrite (clean_cloud_spec _ _ _ _ Hf). rewrite decide_False; [done|].
    intros Hall. apply Exists_exists in Hex as (line & Hin & Hnc & Hlen).
    assert (Hd : line ∈ data_lines content)
      by (apply list_elem_of_filter; done).
    pose proof (proj1 (Forall_forall _ _) Hall line Hd) as Hw.
    unfold well_formed in Hw. lia. }
  split; [done|]. unfold Logic.transform. by rewrite Hc.
Qed.

(** ** Line endings in the third field *)

(** Induction that follows the two-character window of [replace_crlf]. *)
Lemma bytes_pair_ind (P : bytes → Prop) :
  P [] →
  (∀ c, P [c]) →
  (∀ c d s, P s → P (d :: s) → P (c :: d :: s)) →
  ∀ s, P s.
Proof.
  intros Hnil Hone Hstep s.
  enough (P s ∧ ∀ c, P (c :: s)) by tauto.
  induction s as [|d s [IH1 IH2]]; [by split|].
  split; [apply IH2|]. intros c. by apply Hstep.
Qed.

Lemma crlf_paired_cons c s :
  c ≠ CR → c ≠ LF → crlf_paired s = true → crlf_paired (c :: s) = true.
Proof.
  intros Hc Hl Hs. cbn [crlf_paired]. destruct s as [|d s'].
  - by rewrite bool_decide_eq_true.
  - rewrite decide_False by tauto.
    apply andb_true_iff. by rewrite bool_decide_eq_true.
Qed.

Lemma crlf_paired_inv c d s :
  crlf_paired (c :: d :: s) = true →
  (c = CR ∧ d = LF ∧ crlf_paired s = true)
  ∨ (c ≠ CR ∧ c ≠ LF ∧ crlf_paired (d :: s) = true).
Proof.
  cbn [crlf_paired]. case_decide as Hcd.
  - intros ?. left. tauto.
  - intros Hp. apply andb_true_iff in Hp as [Hc ?].
    apply bool_decide_eq_true in Hc. right. tauto.
Qed.

Lemma replace_crlf_paired s :
  crlf_paired s = true → (CR ∉ replace_crlf s) ∧ (LF ∉ replace_crlf s).
Proof.
  induction s as [|c|c d s IH1 IH2] using bytes_pair_ind.
  - intros _. split; apply not_elem_of_nil.
  - cbn. intros Hc. apply bool_decide_eq_true in Hc.
    split; intros Hin; apply list_elem_of_singleton in Hin;
      destruct Hc; congruence.
  - intros Hp. apply crlf_paired_inv in Hp as [(-> & -> & Hs)|(Hc & Hl & Hs)].
    + cbn [replace_crlf]. rewrite decide_True by done. by apply IH1.
    + cbn [replace_crlf]. rewrite decide_False by tauto.
      destruct (IH2 Hs).
      split; intros Hin; apply elem_of_cons in Hin as [Heq|Hin];
        try congruence; tauto.
Qed.

Lemma replace_crlf_bare s :
  (CR ∉ replace_crlf s) ∧ (LF ∉ replace_crlf s) → crlf_paired s = true.
Proof.
  induction s as [|c|c d s IH1 IH2] using bytes_pair_ind.
  - done.
  - cbn. intros [Hc Hl]. apply bool_decide_eq_true.
    split; intros ->; [apply Hc|apply Hl]; apply list_elem_of_here.
  - cbn [replace_crlf crlf_paired]. case_decide as Hcd; [exact IH1|].
    intros [Hc Hl]. apply andb_true_iff. split.
    + apply bool_decide_eq_true.
      split; intros ->; [apply Hc|apply Hl]; apply list_elem_of_here.
    + apply IH2.
      split; intros Hin; [apply Hc|apply Hl]; by apply list_elem_of_further.
Qed.

Lemma split_crlf_paired s :
  crlf_paired s = true →
  Forall (λ f, crlf_paired f = true) (split COMMA s).
Proof.
  assert (Hcons : ∀ c s, c ≠ CR → c ≠ LF →
            Forall (λ f, crlf_paired f = true) (split COMMA s) →
            Forall (λ f, crlf_paired f = true) (split COMMA (c :: s))).
  { intros c t Hc Hl Ht. cbn [split]. case_decide; [by constructor|].
    destruct (split COMMA t) as [|f fs].
    - constructor; [|constructor]. by apply crlf_paired_cons.
    - inversion Ht; subst. constructor; [|done]. by apply crlf_paired_cons. }
  induction s as [|c|c d s IH1 IH2] using bytes_pair_ind.
  - intros _. by repeat constructor.
  - cbn [crlf_paired]. intros Hc. apply bool_decide_eq_true in Hc as [? ?].
    apply Hcons; [done..|]. by repeat constructor.
  - intros Hp. apply crlf_paired_inv in Hp as [(-> & -> & Hs)|(Hc & Hl & Hs)].
    + specialize (IH1 Hs). cbn [split].
      rewrite !decide_False by done.
      destruct (split COMMA s) as [|f fs]; [by repeat constructor|].
      inversion IH1; subst. constructor; [|done].
      cbn [crlf_paired]. by rewrite decide_True.
    + apply Hcons; auto.
Qed.

Lemma cleaned_third_field line :
  well_formed line →
  ∃ z, split COMMA line !! 2%nat = Some z
       ∧ cleaned line !! 2%nat = Some (replace_crlf z).
Proof.
  unfold well_formed, cleaned. intros Hw.
  destruct (lookup_lt_is_Some_2 (split COMMA line) 2 ltac:(lia)) as [z Hz].
  exists z. split; [done|]. by rewrite list_lookup_alter, Hz.
Qed.

(** C2, as stated: a file with a bare newline as line terminator. *)
Lemma lone_newline_stays_in_third_field :
  ¬ (∀ w filepath content rows,
       files w !! filepath = Some content →
       Logic._clean_cloud w filepath [] = Ok rows →
       Forall third_field_bare rows).
Proof.
  intros H.
  specialize (H (World {[ b "a.txt" := b "1,2,3" ++ [LF] ]} ∅) (b "a.txt")
                (b "1,2,3" ++ [LF]) [[b "1"; b "2"; b "3" ++ [LF]]]
                eq_refl eq_refl).
  apply Forall_inv in H. destruct (H (b "3" ++ [LF]) eq_refl) as [_ Hlf].
  apply Hlf. cbn. apply elem_of_cons. right. apply list_elem_of_here.
Qed.

(** C2, amended: the third field of a cleaned row is the raw third field
    [z] of its line with every ['\r\n'] pair removed.  It holds no
    carriage return and no newline exactly when these characters occur in
    [z] only as such pairs, which is so for every non-['#'] line in which
    they occur only as such pairs. *)
Theorem third_field_without_crlf w filepath container content rows :
  files w !! filepath = Some content →
  Logic._clean_cloud w filepath container = Ok rows →
  Forall2 (λ line r,
             ∃ z, split COMMA line !! 2%nat = Some z
                  ∧ r !! 2%nat = Some (replace_crlf z)
                  ∧ (third_field_bare r ↔ crlf_paired z = true)
                  ∧ (crlf_paired line = true → third_field_bare r))
    (data_lines content) (drop (length container) rows).
Proof.
  intros Hf Hrows.
  destruct (clean_cloud_inv _ _ _ _ _ Hf Hrows) as [Hall ->].
  rewrite drop_app_length. apply Forall2_fmap_r, Forall_Forall2_diag.
  eapply Forall_impl; [exact Hall|]. intros line Hw.
  destruct (cleaned_third_field line Hw) as (z & Hz & Hcz).
  assert (Hiff : third_field_bare (cleaned line) ↔ crlf_paired z = true).
  { split.
    - intros Hb. apply replace_crlf_bare. by apply Hb.
    - intros Hp z' Hz'. rewrite Hcz in Hz'. injection Hz' as <-.
      by apply replace_crlf_paired. }
  exists z. split; [done|]. split; [done|]. split; [done|].
  intros Hp. apply Hiff.
  pose proof (split_crlf_paired line Hp) as Hfs.
  eapply (proj1 (Forall_forall _ _) Hfs), list_elem_of_lookup_2, Hz.
Qed.

(** ** Paths *)

Lemma rfind_spec c s :
  (rfind c s = -1 ∧ c ∉ s)
  ∨ ∃ s1 s2, s = s1 ++ c :: s2 ∧ (c ∉ s2) ∧ rfind c s = Z.of_nat (length s1).
Proof.
  induction s as [|d s IH]; cbn [rfind].
  - left. split; [done|]. apply not_elem_of_nil.
  - destruct IH as [[-> Hn]|(s1 & s2 & -> & Hn & ->)].
    + rewrite decide_True by done. case_decide as Hd.
      * subst d. right. exists [], s. by repeat split.
      * left. split; [done|]. rewrite elem_of_cons. intros [?|?]; by subst.
    + rewrite decide_False by lia. right. exists (d :: s1), s2.
      repeat split; [done|]. cbn [length]. lia.
Qed.

Lemma rfind_not_elem c s : c ∉ s → rfind c s = -1.
Proof.
  intros Hn. destruct (rfind_spec c s) as [[? _]|(s1 & s2 & -> & _ & _)]; [done|].
  exfalso. apply Hn. apply elem_of_app. right. apply list_elem_of_here.
Qed.

Lemma rfind_app_last c s1 s2 :
  c ∉ s2 → rfind c (s1 ++ c :: s2) = Z.of_nat (length s1).
Proof.
  intros Hn. induction s1 as [|d s1 IH]; cbn [rfind app].
  - rewrite rfind_not_elem by done. by rewrite !decide_True.
  - rewrite IH, decide_False by lia. cbn [length]. lia.
Qed.

Lemma rstrip_snoc c s : rstrip c (s ++ [c]) = rstrip c s.
Proof.
  induction s as [|d s IH]; cbn [rstrip app].
  - by rewrite decide_True.
  - by rewrite IH.
Qed.

Lemma rstrip_id c s : last s ≠ Some c → rstrip c s = s.
Proof.
  induction s as [|d s IH]; [done|]. intros Hl. cbn [rstrip].
  destruct s as [|e s'].
  - cbn in *. rewrite decide_False; [done|]. congruence.
  - rewrite IH by done. done.
Qed.

Lemma rstrip_last c s : last (rstrip c s) ≠ Some c.
Proof.
  induction s as [|d s IH]; [done|]. cbn [rstrip].
  destruct (rstrip c s) as [|e t] eqn:E.
  - case_decide; [done|]. cbn. congruence.
  - by rewrite last_cons_cons.
Qed.

Lemma rstrip_nil c s : rstrip c s = [] → s = replicate (length s) c.
Proof.
  induction s as [|d s IH]; [done|]. cbn [rstrip].
  destruct (rstrip c s) as [|e t]; [|done].
  case_decide; [|done]. intros _. subst d. cbn. f_equal. by apply IH.
Qed.

Lemma split_shape p :
  head_shape (posixpath.split p).1 ∧ SLASH ∉ (posixpath.split p).2.
Proof.
  unfold posixpath.split.
  assert (Htail : SLASH ∉ drop (Z.to_nat (rfind SLASH p + 1)) p).
  { destruct (rfind_spec SLASH p) as [[-> Hn]|(s1 & s2 & -> & Hn & ->)].
    - done.
    - replace (Z.to_nat (Z.of_nat (length s1) + 1)) with (length (s1 ++ [SLASH]))
        by (rewrite length_app; cbn; lia).
      by rewrite (cons_middle SLASH s1 s2), (assoc_L (++)), drop_app_length. }
  case_decide as Hh; cbn [fst snd]; (split; [|done]).
  - right. split; [|apply rstrip_last].
    intros Hnil. apply rstrip_nil in Hnil. tauto.
  - left. apply not_and_l in Hh as [Hh|Hh].
    + apply dec_stable in Hh. by rewrite Hh.
    + by apply dec_stable in Hh.
Qed.

Lemma split_join_bare h f :
  h = replicate (length h) SLASH → SLASH ∉ f →
  posixpath.split (h ++ f) = (h, f).
Proof.
  intros Hh Hf. unfold posixpath.split.
  assert (Hi : Z.to_nat (rfind SLASH (h ++ f) + 1) = length h).
  { destruct h as [|c h'] using rev_ind.
    - cbn. rewrite rfind_not_elem by done. done.
    - clear IHh'. rewrite length_app in Hh. cbn in Hh.
      rewrite Nat.add_1_r, replicate_S_end in Hh.
      apply app_inj_tail in Hh as [_ ->].
      rewrite <- (assoc_L (++)). cbn [app].
      rewrite rfind_app_last by done. rewrite length_app. cbn. lia. }
  rewrite Hi, take_app_length, drop_app_length.
  rewrite decide_False; [done|]. tauto.
Qed.

Lemma split_join_slash h f :
  h ≠ [] → last h ≠ Some SLASH → SLASH ∉ f →
  posixpath.split (h ++ SLASH :: f) = (h, f).
Proof.
  intros Hne Hl Hf. unfold posixpath.split.
  rewrite rfind_app_last by done.
  replace (Z.to_nat (Z.of_nat (length h) + 1)) with (length (h ++ [SLASH]))
    by (rewrite length_app; cbn; lia).
  rewrite (cons_middle SLASH h f), (assoc_L (++)).
  rewrite take_app_length, drop_app_length.
  rewrite decide_True.
  - by rewrite rstrip_snoc, rstrip_id.
  - split; [by destruct h|]. intros Hall.
    rewrite length_app in Hall. cbn [length] in Hall.
    rewrite Nat.add_1_r, replicate_S_end in Hall.
    apply app_inj_tail in Hall as [Hall _].
    destruct h as [|c h'] using rev_ind; [done|].
    rewrite length_app in Hall. cbn [length] in Hall.
    rewrite Nat.add_1_r, replicate_S_end in Hall.
    apply app_inj_tail in Hall as [_ ->]. by rewrite last_snoc in Hl.
Qed.

Lemma splitext_app p :
  (posixpath.splitext p).1 ++ (posixpath.splitext p).2 = p.
Proof.
  unfold posixpath.splitext.
  repeat case_match; cbn [fst snd]; auto using take_drop, app_nil_r.
Qed.

Lemma splitext_root_elem c p : c ∉ p → c ∉ (posixpath.splitext p).1.
Proof.
  intros Hn Hin. apply Hn. rewrite <- (splitext_app p).
  apply elem_of_app. by left.
Qed.

Lemma join_split h f :
  head_shape h → SLASH ∉ f →
  posixpath.split (posixpath.join h f) = (h, f).
Proof.
  intros Hh Hf. unfold posixpath.join.
  assert (startswith SLASH f = false) as ->.
  { destruct f as [|c f']; [done|]. cbn. apply bool_decide_eq_false.
    intros ->. apply Hf, list_elem_of_here. }
  destruct Hh as [Hall|[Hne Hl]].
  - assert (bool_decide (h = []) || endswith SLASH h = true) as ->.
    { destruct h as [|c h'] using rev_ind; [done|].
      unfold endswith. rewrite last_snoc.
      rewrite length_app in Hall. cbn [length] in Hall.
      rewrite Nat.add_1_r, replicate_S_end in Hall.
      apply app_inj_tail in Hall as [_ ->].
      apply orb_true_iff. right. by apply bool_decide_eq_true. }
    by apply split_join_bare.
  - assert (bool_decide (h = []) || endswith SLASH h = false) as ->.
    { rewrite bool_decide_eq_false_2 by done. unfold endswith.
      destruct (last h) as [d|]; [|done]. cbn.
      apply bool_decide_eq_false. congruence. }
    by apply split_join_slash.
Qed.

(** The extension of the output name, as [splitext] sees it: [.xlsx]
    whenever the name before it has a character that is not a dot. *)
Lemma splitext_loop_spec p i n :
  (i + n ≤ length p)%nat →
  posixpath.splitext_loop p i n
  = bool_decide (Exists (λ c, c ≠ DOT) (take n (drop i p))).
Proof.
  revert i. induction n as [|n IH]; intros i Hi.
  - cbn. symmetry. apply bool_decide_eq_false. by inversion 1.
  - cbn [posixpath.splitext_loop].
    destruct (lookup_lt_is_Some_2 p i ltac:(lia)) as [c Hc].
    rewrite Hc, (drop_S _ _ _ Hc), firstn_cons. case_decide as Hd.
    + symmetry. apply bool_decide_eq_true. by apply Exists_cons_hd.
    + rewrite IH by lia. apply bool_decide_ext. split.
      * by apply Exists_cons_tl.
      * inversion 1; [done|assumption].
Qed.

Lemma xlsx_name_extension root :
  SLASH ∉ root → Exists (λ c, c ≠ DOT) root →
  posixpath.splitext (root ++ b ".xlsx") = (root, b ".xlsx").
Proof.
  intros Hs Hd. unfold posixpath.splitext.
  assert (Hsep : rfind SLASH (root ++ b ".xlsx") = -1).
  { apply rfind_not_elem. intros Hin. apply elem_of_app in Hin as [Hin|Hin].
    - done.
    - unfold b in Hin. cbn in Hin.
      repeat (apply elem_of_cons in Hin as [Hin|Hin]; [discriminate|]).
      by apply elem_of_nil in Hin. }
  assert (Hdot : rfind DOT (root ++ b ".xlsx") = Z.of_nat (length root)).
  { change (b ".xlsx") with (DOT :: b "xlsx"). apply rfind_app_last.
    intros Hin. unfold b in Hin. cbn in Hin.
    repeat (apply elem_of_cons in Hin as [Hin|Hin]; [discriminate|]).
    by apply elem_of_nil in Hin. }
  rewrite Hsep, Hdot. rewrite decide_True by lia.
  replace (Z.to_nat (-1 + 1)) with 0%nat by lia.
  replace (Z.to_nat (Z.of_nat (length root) - (-1 + 1))) with (length root)
    by lia.
  rewrite splitext_loop_spec by (rewrite length_app; cbn; lia).
  rewrite drop_0, take_app_length, bool_decide_eq_true_2 by done.
  by rewrite Nat2Z.id, take_app_length, drop_app_length.
Qed.

(** C9: whatever the input path, the output path has the directory of the
    input path ([head]) and, as file name, the file name of the input path
    with its extension [ext] replaced by [.xlsx]; that is also how
    [splitext] reads the new name, unless the name before the extension is
    empty or all dots. *)
Theorem xlsx_path_replaces_extension filepath :
  let head := (posixpath.split filepath).1 in
  let tail := (posixpath.split filepath).2 in
  let root := (posixpath.splitext tail).1 in
  let ext := (posixpath.splitext tail).2 in
  tail = root ++ ext
  ∧ posixpath.split (Logic._xlsx_path filepath) = (head, root ++ b ".xlsx")
  ∧ (Exists (λ c, c ≠ DOT) root →
     posixpath.splitext (root ++ b ".xlsx") = (root, b ".xlsx")).
Proof.
  intros head tail root ext.
  destruct (split_shape filepath) as [Hh Ht]. fold head tail in Hh, Ht.
  assert (Hroot : SLASH ∉ root) by (by apply splitext_root_elem).
  split; [symmetry; apply splitext_app|]. split.
  - unfold Logic._xlsx_path.
    destruct (posixpath.split filepath) as [h t] eqn:E.
    cbn [fst snd] in *. subst head tail root.
    apply join_split; [done|].
    intros Hin. apply elem_of_app in Hin as [Hin|Hin]; [done|].
    unfold b in Hin. cbn in Hin.
    repeat (apply elem_of_cons in Hin as [Hin|Hin]; [discriminate|]).
    by apply elem_of_nil in Hin.
  - by apply xlsx_name_extension.
Qed.

(** ** The subsample validator *)

Lemma float_in_range v :
  float_lt (Fin 0) v && float_le v (Fin 1) = true
  ↔ ∃ q, v = Fin q ∧ (0 < q)%Q ∧ (q <= 1)%Q.
Proof.
  destruct v as [q|negative|]; cbn.
  - rewrite andb_true_iff, negb_true_iff, Qle_bool_iff.
    rewrite <- not_true_iff_false, Qle_bool_iff. split.
    + intros [Hlt Hle]. exists q. split; [done|]. split; [|done].
      by apply Qnot_le_lt.
    + intros (q' & [= <-] & Hlt & Hle). split; [|done].
      by apply Qlt_not_le.
  - split; [|by intros (q & ? & _)]. by destruct negative.
  - split; [done|]. by intros (q & ? & _).
Qed.

(** C4: whatever the text [x] and whatever [float] does on it, the
    validator returns the parsed float exactly when [x] parses and the
    value is a number greater than 0 and at most 1; it returns [None] in
    every other case: no parse, or a value outside that interval (an
    infinity and NaN included). *)
Theorem validate_subsample_accepts_unit_interval
    (float_of_str : bytes → option pyfloat) (x : bytes) :
  (∀ v, Logic.validate_subsample float_of_str x = Some v
        ↔ float_of_str x = Some v
          ∧ ∃ q, v = Fin q ∧ (0 < q)%Q ∧ (q <= 1)%Q)
  ∧ (Logic.validate_subsample float_of_str x = None
     ↔ float_of_str x = None
       ∨ ∃ v, float_of_str x = Some v
              ∧ ¬ ∃ q, v = Fin q ∧ (0 < q)%Q ∧ (q <= 1)%Q).
Proof.
  unfold Logic.validate_subsample.
  destruct (float_of_str x) as [v0|]; [|split; [|tauto]; by intros v; split; [|intros []]].
  pose proof (float_in_range v0) as Hr.
  destruct (float_lt (Fin 0) v0 && float_le v0 (Fin 1)).
  - split.
    + intros v. split.
      * intros [= <-]. split; [done|]. by apply Hr.
      * by intros [[= <-] _].
    + split; [done|]. intros [?|(v & [= <-] & Hn)]; [done|].
      exfalso. apply Hn. by apply Hr.
  - split.
    + intros v. split; [done|]. intros [[= <-] Hq]. by apply Hr in Hq.
    + split; [|done]. intros _. right. exists v0. split; [done|].
      intros Hq. by apply Hr in Hq.
Qed.

(** ** Rounding *)

Lemma round_half_away_proper p p' :
  (p == p')%Q → round_half_away p = round_half_away p'.
Proof.
  intros E. unfold round_half_away. rewrite (Qleb_comp 0%Q 0%Q (Qeq_refl 0%Q) p p' E).
  destruct (Qle_bool 0%Q p'); [apply Qfloor_comp|apply Qceiling_comp]; lra.
Qed.

Lemma round_half_away_bounds p N :
  (0 <= p)%Q → (p <= inject_Z N)%Q → 0 ≤ round_half_away p ≤ N.
Proof.
  intros H0 HN. unfold round_half_away.
  rewrite (proj2 (Qle_bool_iff 0%Q p) H0). split.
  - change 0 with (Qfloor 0%Q). apply Qfloor_resp_le. lra.
  - enough (Qfloor (p + (1 # 2)) < N + 1) by lia.
    rewrite Zlt_Qlt. eapply Qle_lt_trans; [apply Qfloor_le|].
    rewrite inject_Z_plus. change (inject_Z 1) with 1%Q. lra.
Qed.

Lemma round_half_away_Z n : round_half_away (inject_Z n) = n.
Proof.
  unfold round_half_away. destruct (Qle_bool 0%Q (inject_Z n)) eqn:E.
  - apply Z.le_antisymm.
    + enough (Qfloor (inject_Z n + (1 # 2)) < n + 1) by lia.
      rewrite Zlt_Qlt. eapply Qle_lt_trans; [apply Qfloor_le|].
      rewrite inject_Z_plus. change (inject_Z 1) with 1%Q. lra.
    + rewrite <- (Qfloor_Z n) at 1. apply Qfloor_resp_le. lra.
  - apply Z.le_antisymm.
    + rewrite <- (Qceiling_Z n) at 2. apply Qceiling_resp_le. lra.
    + enough (n - 1 < Qceiling (inject_Z n - (1 # 2))) by lia.
      rewrite Zlt_Qlt. eapply Qlt_le_trans; [|apply Qle_ceiling].
      unfold Zminus. rewrite inject_Z_plus, inject_Z_opp.
      change (inject_Z 1) with 1%Q. lra.
Qed.

Lemma int_round p : py_int (py_round (Fin p)) = Ok (round_half_away p).
Proof.
  cbn. f_equal. destruct (Qle_bool 0%Q (inject_Z (round_half_away p)));
    [apply Qfloor_Z|apply Qceiling_Z].
Qed.

(** ** Picking rows by position *)

Lemma fmap_lookup_total_seq {A} `{!Inhabited A} (l : list A) :
  (λ i, l !!! i) <$> seq 0 (length l) = l.
Proof.
  apply list_eq. intros i. rewrite list_lookup_fmap.
  destruct (decide (i < length l)%nat) as [Hi|Hi].
  - rewrite lookup_seq_lt by done. cbn.
    destruct (lookup_lt_is_Some_2 l i Hi) as [x Hx].
    by rewrite Hx, (list_lookup_total_correct _ _ _ Hx).
  - rewrite lookup_seq_ge by lia. cbn. symmetry. apply lookup_ge_None_2. lia.
Qed.

Lemma picked_fmap {A} `{!Inhabited A} (l : list A) locs out :
  Forall2 (λ i r, l !! i = Some r) locs out → out = (λ i, l !!! i) <$> locs.
Proof.
  induction 1 as [|i r locs out Hr _ IH]; [done|].
  cbn. by rewrite (list_lookup_total_correct _ _ _ Hr), IH.
Qed.

Lemma picked_submseteq {A} `{!Inhabited A} (l : list A) locs out :
  Forall2 (λ i r, l !! i = Some r) locs out →
  locs ⊆+ seq 0 (length l) → out ⊆+ l.
Proof.
  intros Hp Hs. rewrite (picked_fmap _ _ _ Hp).
  pose proof (fmap_submseteq (λ i, l !!! i) _ _ Hs) as H.
  by rewrite fmap_lookup_total_seq in H.
Qed.

Lemma picked_Permutation {A} `{!Inhabited A} (l : list A) locs out :
  Forall2 (λ i r, l !! i = Some r) locs out →
  locs ≡ₚ seq 0 (length l) → out ≡ₚ l.
Proof.
  intros Hp Hs. rewrite (picked_fmap _ _ _ Hp).
  pose proof (fmap_Permutation (λ i, l !!! i) _ _ Hs) as H.
  by rewrite fmap_lookup_total_seq in H.
Qed.

Lemma take_rows_spec df locs :
  Forall (λ i, (i < length df)%nat) locs →
  ∃ out, pd.take_rows df locs = Ok out
         ∧ Forall2 (λ i r, df !! i = Some r) locs out.
Proof.
  induction 1 as [|i locs Hi _ (out & Ho & Hf)].
  - by exists [].
  - destruct (lookup_lt_is_Some_2 df i Hi) as [r Hr]. exists (r :: out).
    cbn [pd.take_rows]. unfold getitem. rewrite Hr. cbn. rewrite Ho. cbn.
    split; [done|]. by constructor.
Qed.

Lemma picked_rows_of_data width (data : list row) locs out :
  Forall2 (λ i r, (pd.fill width <$> data) !! i = Some r) locs out →
  ∃ sub, Forall2 (λ i r, data !! i = Some r) locs sub
         ∧ out = pd.fill width <$> sub.
Proof.
  induction 1 as [|i r locs out Hr _ (sub & Hs & ->)].
  - by exists [].
  - rewrite list_lookup_fmap in Hr.
    destruct (data !! i) as [r0|] eqn:E; [|done]. injection Hr as <-.
    exists (r0 :: sub). split; [by constructor|done].
Qed.

Lemma DataFrame_length data : length (pd.DataFrame data) = length data.
Proof. unfold pd.DataFrame. by rewrite length_fmap. Qed.

Lemma DataFrame_width data :
  Forall (λ r, length r = max_list (length <$> data)) (pd.DataFrame data).
Proof.
  unfold pd.DataFrame. apply Forall_fmap, Forall_forall. intros r Hr. cbn.
  unfold pd.fill. rewrite length_app, length_fmap, length_replicate.
  assert (length r ≤ max_list (length <$> data))%nat; [|lia].
  apply max_list_elem_of_le, list_elem_of_fmap. by exists r.
Qed.

Lemma DataFrame_rectangular k data :
  Forall (λ r, length r = k) data →
  pd.DataFrame data = (λ r : row, Some <$> r) <$> data.
Proof.
  intros Hk. unfold pd.DataFrame. apply list_fmap_ext. intros i r Hr.
  unfold pd.fill.
  assert (max_list (length <$> data) - length r = 0)%nat as ->;
    [|by rewrite app_nil_r].
  assert (Hin : r ∈ data) by (by eapply list_elem_of_lookup_2).
  rewrite (proj1 (Forall_forall _ _) Hk r Hin).
  enough (max_list (length <$> data) ≤ k)%nat by lia.
  clear -Hk. induction Hk as [|r' data' Hr' _ IH]; cbn; lia.
Qed.

Lemma filter_all {A} (P : A → Prop) `{!∀ x, Decision (P x)} (l : list A) :
  Forall P l → filter P l = l.
Proof.
  induction 1 as [|x l Hx _ IH]; [done|].
  by rewrite filter_cons, decide_True, IH.
Qed.

(** ** The sampler and writer *)

Section Sampling.

Variable rnd : Q → Q.
Variable permutation : Z → nat → list nat.

(** Round-to-nearest is monotone, and an integer of at most 53 bits is
    a binary64 number. *)
Hypothesis rnd_mono : ∀ p q, (p <= q)%Q → (rnd p <= rnd q)%Q.
Hypothesis rnd_exact :
  ∀ n, Z.abs n ≤ 2 ^ 53 → (rnd (inject_Z n) == inject_Z n)%Q.

(** [RandomState(seed).permutation(n)] is a shuffle of [range(n)]. *)
Hypothesis permutation_shuffles : ∀ seed n, permutation seed n ≡ₚ seq 0 n.

Lemma rnd_proper p q : (p == q)%Q → (rnd p == rnd q)%Q.
Proof. intros E. apply Qle_antisym; apply rnd_mono; lra. Qed.

(** [n = int(round(frac * axis_length))] for a fraction in (0, 1]. *)
Lemma sample_size q N :
  (0 < q)%Q → (q <= 1)%Q → 0 ≤ N ≤ 2 ^ 53 →
  py_int (py_round (float_mul rnd (Fin q) (float_of_int rnd N)))
    = Ok (round_half_away (rnd (q * inject_Z N)))
  ∧ 0 ≤ round_half_away (rnd (q * inject_Z N)) ≤ N.
Proof.
  intros Hq0 Hq1 HN.
  assert (HrN : (rnd (inject_Z N) == inject_Z N)%Q) by (apply rnd_exact; lia).
  assert (H0N : (0 <= inject_Z N)%Q)
    by (change 0%Q with (inject_Z 0); rewrite <- Zle_Qle; lia).
  split.
  - unfold float_of_int, float_mul. rewrite int_round. f_equal.
    apply round_half_away_proper, rnd_proper. by rewrite HrN.
  - apply round_half_away_bounds.
    + assert (H0 : (rnd (inject_Z 0) == 0)%Q) by (apply rnd_exact; lia).
      apply Qle_trans with (rnd (inject_Z 0)); [lra|].
      apply rnd_mono. change (inject_Z 0) with 0%Q. nra.
    + apply Qle_trans with (rnd (inject_Z N)); [|lra].
      apply rnd_mono. nra.
Qed.

Lemma sample_spec df q seed :
  (0 < q)%Q → (q <= 1)%Q → Z.of_nat (length df) ≤ 2 ^ 53 →
  let n :=
    Z.to_nat (round_half_away (rnd (q * inject_Z (Z.of_nat (length df)))))
  in
  (n ≤ length df)%nat
  ∧ ∃ out,
      pd.sample rnd permutation df (Fin q) seed = Ok out
      ∧ Forall2 (λ i r, df !! i = Some r)
          (take n (permutation seed (length df))) out.
Proof.
  intros Hq0 Hq1 HN n.
  destruct (sample_size q (Z.of_nat (length df)) Hq0 Hq1 ltac:(lia))
    as [Hn Hb].
  assert (Hle : (n ≤ length df)%nat) by (subst n; lia).
  split; [done|]. unfold pd.sample. rewrite Hn. cbn.
  rewrite decide_False by lia. unfold pd.choice.
  fold n. rewrite decide_False by lia. cbn.
  apply take_rows_spec, Forall_forall. intros i Hi.
  apply elem_of_take in Hi as (j & Hi & _).
  apply list_elem_of_lookup_2 in Hi.
  rewrite permutation_shuffles in Hi. apply elem_of_seq in Hi. lia.
Qed.

Lemma create_xlsx_spec w filepath data q seed :
  (0 < q)%Q → (q <= 1)%Q → Z.of_nat (length data) ≤ 2 ^ 53 →
  let n :=
    Z.to_nat (round_half_away (rnd (q * inject_Z (Z.of_nat (length data)))))
  in
  (n ≤ length data)%nat
  ∧ ∃ sh,
      Logic._create_xlsx rnd permutation w filepath data (Fin q) seed
        = Ok (pd.to_excel w (Logic._xlsx_path filepath) sh)
      ∧ books (pd.to_excel w (Logic._xlsx_path filepath) sh)
          !! Logic._xlsx_path filepath = Some sh
      ∧ Forall2 (λ i r, pd.DataFrame data !! i = Some r)
          (take n (permutation seed (length data))) sh.
Proof.
  intros Hq0 Hq1 HN n.
  destruct (sample_spec (pd.DataFrame data) q seed Hq0 Hq1)
    as (Hle & sh & Hs & Hp); [by rewrite DataFrame_length|].
  rewrite DataFrame_length in Hle, Hp. split; [done|]. exists sh.
  unfold Logic._create_xlsx. rewrite Hs. cbn.
  split; [done|]. split; [apply lookup_insert_eq|done].
Qed.

(** C1: for a fraction [q] with [0 < q ≤ 1] and a dataset of [N] rows
    ([N] at most [2^53], so that it is a float), the writer stores a sheet
    whose number of rows is [int(round(q * N))], the product rounded to
    the nearest integer. *)
Theorem sample_row_count w filepath data q seed :
  (0 < q)%Q → (q <= 1)%Q → Z.of_nat (length data) ≤ 2 ^ 53 →
  ∃ w' sh,
    Logic._create_xlsx rnd permutation w filepath data (Fin q) seed = Ok w'
    ∧ books w' !! Logic._xlsx_path filepath = Some sh
    ∧ py_int (py_round (float_mul rnd (Fin q)
                          (float_of_int rnd (Z.of_nat (length data)))))
      = Ok (Z.of_nat (length sh))
    ∧ Z.of_nat (length sh)
      = round_half_away (rnd (q * inject_Z (Z.of_nat (length data)))).
Proof.
  intros Hq0 Hq1 HN.
  destruct (create_xlsx_spec w filepath data q seed Hq0 Hq1 HN)
    as (Hle & sh & Hc & Hb & Hp).
  destruct (sample_size q (Z.of_nat (length data)) Hq0 Hq1 ltac:(lia))
    as [Hn Hbounds].
  assert (Hlen : Z.of_nat (length sh)
            = round_half_away (rnd (q * inject_Z (Z.of_nat (length data))))).
  { rewrite <- (Forall2_length _ _ _ Hp), length_take.
    rewrite (Permutation_length (permutation_shuffles seed (length data))).
    rewrite length_seq. lia. }
  exists (pd.to_excel w (Logic._xlsx_path filepath) sh), sh.
  by rewrite Hlen.
Qed.

(** C10: for a fraction [q] with [0 < q ≤ 1], the rows of the written
    sheet are rows of the dataset (as frame rows), none taken more often
    than the dataset holds it: the sample is a sub-multiset. *)
Theorem sample_is_without_replacement w filepath data q seed :
  (0 < q)%Q → (q <= 1)%Q → Z.of_nat (length data) ≤ 2 ^ 53 →
  ∃ w' sh sub,
    Logic._create_xlsx rnd permutation w filepath data (Fin q) seed = Ok w'
    ∧ books w' !! Logic._xlsx_path filepath = Some sh
    ∧ sub ⊆+ data
    ∧ Forall (λ r, r ∈ data) sub
    ∧ sh = pd.fill (max_list (length <$> data)) <$> sub
    ∧ sh ⊆+ pd.DataFrame data.
Proof.
  intros Hq0 Hq1 HN.
  destruct (create_xlsx_spec w filepath data q seed Hq0 Hq1 HN)
    as (Hle & sh & Hc & Hb & Hp).
  set (locs := take _ _) in Hp.
  assert (Hlocs : locs ⊆+ seq 0 (length data)).
  { etrans; [apply submseteq_take|].
    apply Permutation_submseteq, permutation_shuffles. }
  destruct (picked_rows_of_data _ _ _ _ Hp) as (sub & Hsub & ->).
  assert (Hsd : sub ⊆+ data) by (by eapply picked_submseteq).
  exists (pd.to_excel w (Logic._xlsx_path filepath)
            (pd.fill (max_list (length <$> data)) <$> sub)),
    (pd.fill (max_list (length <$> data)) <$> sub), sub.
  repeat split; [done..| |by apply fmap_submseteq].
  apply Forall_forall. intros r Hr. by eapply elem_of_submseteq.
Qed.

(** C7: with the fraction 1.0 and a file of [N] lines, none a ['#'] line
    and each of three fields, [transform] writes a sheet of exactly [N]
    rows that is a rearrangement of the cleaned rows of the file: the
    same rows, each as often, in an order that the shuffle decides. *)
Theorem full_fraction_keeps_every_row w filepath content q seed :
  files w !! filepath = Some content →
  Forall (λ line, is_comment line = false
                  ∧ length (split COMMA line) = 3%nat)
    (file_lines content) →
  (q == 1)%Q →
  Z.of_nat (length (file_lines content)) ≤ 2 ^ 53 →
  ∃ w' sh,
    Logic.transform rnd permutation w filepath [] (Fin q) seed
      = Ok (cleaned <$> file_lines content, w')
    ∧ books w' !! Logic._xlsx_path filepath = Some sh
    ∧ length sh = length (file_lines content)
    ∧ sh ≡ₚ (λ r : row, Some <$> r) <$> (cleaned <$> file_lines content).
Proof.
  intros Hf Hclean Hq HN.
  assert (Hd : data_lines content = file_lines content).
  { apply filter_all. eapply Forall_impl; [exact Hclean|]. by intros l []. }
  assert (Hw : Forall well_formed (data_lines content)).
  { rewrite Hd. eapply Forall_impl; [exact Hclean|].
    intros l [_ Hl]. unfold well_formed. lia. }
  set (rows := cleaned <$> file_lines content).
  assert (Hlen : length rows = length (file_lines content))
    by (unfold rows; by rewrite length_fmap).
  assert (Hc : Logic._clean_cloud w filepath [] = Ok rows).
  { rewrite (clean_cloud_spec _ _ _ _ Hf), decide_True by done.
    by rewrite Hd. }
  destruct (create_xlsx_spec w filepath rows q seed)
    as (_ & sh & Hx & Hb & Hp); [lra|lra|lia|].
  assert (Hn : Z.to_nat (round_half_away
                 (rnd (q * inject_Z (Z.of_nat (length rows)))))
               = length rows).
  { rewrite (round_half_away_proper _ (inject_Z (Z.of_nat (length rows)))).
    - rewrite round_half_away_Z. lia.
    - rewrite <- (rnd_exact (Z.of_nat (length rows))) at 2 by lia.
      apply rnd_proper. rewrite Hq. ring. }
  rewrite Hn, take_ge in Hp
    by (rewrite (Permutation_length (permutation_shuffles _ _)), length_seq;
        lia).
  assert (Hperm : sh ≡ₚ pd.DataFrame rows).
  { eapply picked_Permutation; [exact Hp|].
    rewrite DataFrame_length. apply permutation_shuffles. }
  exists (pd.to_excel w (Logic._xlsx_path filepath) sh), sh.
  split; [|split; [done|split]].
  - unfold Logic.transform. rewrite Hc. cbn [mbind result_bind].
    by rewrite Hx.
  - by rewrite (Permutation_length Hperm), DataFrame_length.
  - rewrite Hperm. rewrite (DataFrame_rectangular 3); [done|].
    unfold rows. apply Forall_fmap. eapply Forall_impl; [exact Hclean|].
    intros l [_ Hl]. cbn. unfold cleaned. by rewrite length_alter.
Qed.

End Sampling.

(** ** The width of the rows *)

Lemma take_rows_inv df locs out :
  pd.take_rows df locs = Ok out → Forall2 (λ i r, df !! i = Some r) locs out.
Proof.
  revert out. induction locs as [|i locs IH]; intros out; cbn [pd.take_rows].
  - intros [= <-]. constructor.
  - unfold getitem. destruct (df !! i) as [r|] eqn:E; [|done].
    cbn [mbind result_bind].
    destruct (pd.take_rows df locs) as [rs|]; [|done].
    intros [= <-]. constructor; [done|]. by apply IH.
Qed.

Lemma sample_inv rnd permutation df frac seed out :
  pd.sample rnd permutation df frac seed = Ok out → Forall (λ r, r ∈ df) out.
Proof.
  unfold pd.sample, pd.choice.
  destruct (py_int _) as [n|]; [|done]. cbn [mbind result_bind].
  case_decide; [done|]. case_decide; [done|]. cbn [mbind result_bind].
  intros Ht%take_rows_inv. apply Forall_forall. intros r Hr.
  apply list_elem_of_lookup in Hr as [k Hk].
  destruct (Forall2_lookup_r _ _ _ _ _ Ht Hk) as (i & _ & Hi).
  by eapply list_elem_of_lookup_2.
Qed.

(** C5, as stated: a line of four fields. *)
Lemma four_fields_give_a_row_of_four :
  ¬ (∀ w filepath content rows,
       files w !! filepath = Some content →
       Logic._clean_cloud w filepath [] = Ok rows →
       Forall (λ r, length r = 3%nat) rows).
Proof.
  intros H.
  specialize (H (World {[ b "a.txt" := b "1,2,3,4" ++ [CR; LF] ]} ∅)
                (b "a.txt") (b "1,2,3,4" ++ [CR; LF])
                [[b "1"; b "2"; b "3"; b "4" ++ [CR; LF]]]
                eq_refl eq_refl).
  apply Forall_inv in H. discriminate H.
Qed.

(** C5, amended: a row of the cleaned dataset has at least three fields,
    one per comma-separated field of its source line (one more than the
    line has commas); and every row of the written sheet has as many
    columns as the longest row of the cleaned dataset. *)
Theorem rows_have_a_field_per_comma
    rnd permutation w filepath container content subsample seed :
  files w !! filepath = Some content →
  (∀ rows,
     Logic._clean_cloud w filepath container = Ok rows →
     Forall2 (λ line r, length r = S (count_occ ascii_dec line COMMA)
                        ∧ (3 ≤ length r)%nat)
       (data_lines content) (drop (length container) rows))
  ∧ (∀ rows w',
       Logic.transform rnd permutation w filepath container subsample seed
         = Ok (rows, w') →
       ∃ sh, books w' !! Logic._xlsx_path filepath = Some sh
             ∧ Forall (λ r, length r = max_list (length <$> rows)) sh).
Proof.
  intros Hf. split.
  - intros rows Hrows.
    destruct (clean_cloud_inv _ _ _ _ _ Hf Hrows) as [Hall ->].
    rewrite drop_app_length. apply Forall2_fmap_r, Forall_Forall2_diag.
    eapply Forall_impl; [exact Hall|]. intros line Hw.
    cbn. unfold cleaned. rewrite length_alter.
    split; [apply split_length|done].
  - intros rows w'. unfold Logic.transform.
    destruct (Logic._clean_cloud w filepath container) as [rows'|]; [|done].
    cbn [mbind result_bind]. unfold Logic._create_xlsx.
    destruct (pd.sample _ _ _ _ _) as [sh|] eqn:Es; [|done].
    cbn [mbind result_bind]. intros [= <- <-]. exists sh.
    split; [apply lookup_insert_eq|].
    apply sample_inv in Es. apply Forall_forall. intros r Hr.
    apply (proj1 (Forall_forall _ _) Es) in Hr.
    by apply (proj1 (Forall_forall _ _) (DataFrame_width rows')).
Qed.

(** ** Rounding to 53 bits *)

Lemma round_half_even_proper p q :
  (p == q)%Q -> round_half_even p = round_half_even q.
Proof.
  intros E. unfold round_half_even. rewrite (Qfloor_comp _ _ E).
  assert (H : (p - inject_Z (Qfloor q) == q - inject_Z (Qfloor q))%Q) by lra.
  now rewrite (Qcompare_comp _ _ H _ _ (Qeq_refl (1 # 2))).
Qed.

Lemma round_half_even_near q :
  (inject_Z (round_half_even q) - (1 # 2) <= q)%Q
  /\ (q <= inject_Z (round_half_even q) + (1 # 2))%Q.
Proof.
  unfold round_half_even.
  pose proof (Qfloor_le q) as Hl. pose proof (Qlt_floor q) as Hu.
  rewrite inject_Z_plus in Hu. change (inject_Z 1) with 1%Q in Hu.
  destruct (Qcompare_spec (q - inject_Z (Qfloor q)) (1 # 2)) as [E|L|G].
  - destruct (Z.even (Qfloor q)).
    + split; lra.
    + rewrite inject_Z_plus. change (inject_Z 1) with 1%Q. split; lra.
  - split; lra.
  - rewrite inject_Z_plus. change (inject_Z 1) with 1%Q. split; lra.
Qed.

Lemma round_half_even_Z n : round_half_even (inject_Z n) = n.
Proof.
  unfold round_half_even. rewrite Qfloor_Z.
  destruct (Qcompare_spec (inject_Z n - inject_Z n) (1 # 2)) as [E|L|G];
    [exfalso; lra|reflexivity|exfalso; lra].
Qed.

Lemma round_half_even_mono p q :
  (p <= q)%Q -> round_half_even p <= round_half_even q.
Proof.
  intros Hpq.
  destruct (Z_le_gt_dec (round_half_even p) (round_half_even q)) as [|Hgt];
    [assumption|exfalso].
  destruct (round_half_even_near p) as [Hp _].
  destruct (round_half_even_near q) as [_ Hq].
  assert (H1 : (inject_Z (round_half_even q) + 1 <= inject_Z (round_half_even p))%Q).
  { change 1%Q with (inject_Z 1). rewrite <- inject_Z_plus, <- Zle_Qle. lia. }
  assert (E : (p == q)%Q) by lra.
  apply round_half_even_proper in E. lia.
Qed.

Lemma two_power_pos k : (0 < 2 ^ k)%Q.
Proof. apply Qpower_0_lt. reflexivity. Qed.

Lemma two_power_succ k : (2 ^ (k + 1) == 2 * 2 ^ k)%Q.
Proof. rewrite Qpower_plus by discriminate. rewrite Qpower_1_r. ring. Qed.

Lemma two_power_log2 n :
  0 < n ->
  (2 ^ Z.log2 n <= inject_Z n)%Q /\ (inject_Z n < 2 * 2 ^ Z.log2 n)%Q.
Proof.
  intros Hn. destruct (Z.log2_spec n Hn) as [Hl Hu].
  pose proof (Z.log2_nonneg n) as H0.
  rewrite <- two_power_succ.
  change 2%Q with (inject_Z 2).
  rewrite <- !Zpower_Qpower by lia. rewrite <- Zle_Qle, <- Zlt_Qlt.
  split; [assumption|]. now rewrite <- Z.add_1_r in Hu.
Qed.

Lemma ilog2_spec x :
  (0 < x)%Q -> (2 ^ ilog2 x <= x)%Q /\ (x < 2 ^ (ilog2 x + 1))%Q.
Proof.
  intros Hx. unfold ilog2. destruct x as [a b]. cbn [Qnum Qden].
  assert (Ha : 0 < a) by (unfold Qlt in Hx; cbn in Hx; lia).
  destruct (two_power_log2 a Ha) as [Hal Hau].
  destruct (two_power_log2 (Zpos b) eq_refl) as [Hbl Hbu].
  set (la := Z.log2 a) in *. set (lb := Z.log2 (Zpos b)) in *.
  pose proof (two_power_pos la) as HA. pose proof (two_power_pos lb) as HB.
  pose proof (two_power_pos (la - lb)) as HP.
  assert (HPB : (2 ^ (la - lb) * 2 ^ lb == 2 ^ la)%Q).
  { rewrite <- Qpower_plus by discriminate. now replace (la - lb + lb) with la by lia. }
  assert (Hxb : (a # b) * inject_Z (Zpos b) == inject_Z a).
  { unfold Qeq, Qmult, inject_Z. cbn. lia. }
  assert (Hb0 : (0 < inject_Z (Zpos b))%Q) by (unfold Qlt; cbn; lia).
  set (x := a # b) in *. set (P := (2 ^ (la - lb))%Q) in *.
  set (A := (2 ^ la)%Q) in *. set (B := (2 ^ lb)%Q) in *.
  set (qa := inject_Z a) in *. set (qb := inject_Z (Zpos b)) in *.
  assert (Hup : (x < 2 * P)%Q).
  { apply Qmult_lt_r with (z := (qb * B)%Q); [nra|]. nra. }
  assert (Hlo : (P <= 2 * x)%Q).
  { apply Qmult_le_r with (z := (qb * B)%Q); [nra|]. nra. }
  destruct (Qle_bool P x) eqn:E.
  - apply Qle_bool_iff in E. subst P. rewrite two_power_succ. split; lra.
  - assert (Hlt : (x < P)%Q).
    { apply Qnot_le_lt. intros H. apply Qle_bool_iff in H. congruence. }
    replace (la - lb - 1 + 1) with (la - lb) by lia.
    assert (HP1 : (2 ^ (la - lb) == 2 * 2 ^ (la - lb - 1))%Q).
    { rewrite <- two_power_succ. now replace (la - lb - 1 + 1) with (la - lb) by lia. }
    fold P in HP1 |- *. set (P' := (2 ^ (la - lb - 1))%Q) in *. split; lra.
Qed.

Lemma ilog2_unique x e :
  (0 < x)%Q -> (2 ^ e <= x)%Q -> (x < 2 ^ (e + 1))%Q -> ilog2 x = e.
Proof.
  intros Hx Hl Hu. destruct (ilog2_spec x Hx) as [Hl' Hu'].
  assert (H1 : ilog2 x < e + 1).
  { apply (Qpower_lt_compat_l_inv 2); [|reflexivity]. lra. }
  assert (H2 : e < ilog2 x + 1).
  { apply (Qpower_lt_compat_l_inv 2); [|reflexivity]. lra. }
  lia.
Qed.

Lemma ilog2_mono x y : (0 < x)%Q -> (x <= y)%Q -> ilog2 x <= ilog2 y.
Proof.
  intros Hx Hxy. destruct (ilog2_spec x Hx) as [Hl _].
  destruct (ilog2_spec y ltac:(lra)) as [_ Hu].
  enough (ilog2 x < ilog2 y + 1) by lia.
  apply (Qpower_lt_compat_l_inv 2); [|reflexivity]. lra.
Qed.

Lemma scaled_bounds x :
  (0 < x)%Q ->
  (inject_Z (2 ^ 52) <= x / 2 ^ (ilog2 x - 52))%Q
  /\ (x / 2 ^ (ilog2 x - 52) <= inject_Z (2 ^ 53))%Q.
Proof.
  intros Hx. destruct (ilog2_spec x Hx) as [Hl Hu].
  pose proof (two_power_pos (ilog2 x - 52)) as Hu0.
  assert (He : (2 ^ ilog2 x == inject_Z (2 ^ 52) * 2 ^ (ilog2 x - 52))%Q).
  { rewrite Zpower_Qpower by lia. change (inject_Z 2) with 2%Q.
    rewrite <- Qpower_plus by discriminate.
    now replace (52 + (ilog2 x - 52)) with (ilog2 x) by lia. }
  assert (He' : (2 ^ (ilog2 x + 1) == inject_Z (2 ^ 53) * 2 ^ (ilog2 x - 52))%Q).
  { rewrite Zpower_Qpower by lia. change (inject_Z 2) with 2%Q.
    rewrite <- Qpower_plus by discriminate.
    now replace (53 + (ilog2 x - 52)) with (ilog2 x + 1) by lia. }
  set (u := (2 ^ (ilog2 x - 52))%Q) in *.
  split.
  - apply Qle_shift_div_l; [assumption|]. lra.
  - apply Qle_shift_div_r; [assumption|]. lra.
Qed.

Lemma round_pos_bounds x :
  (0 < x)%Q ->
  (2 ^ ilog2 x <= round_pos x)%Q /\ (round_pos x <= 2 ^ (ilog2 x + 1))%Q.
Proof.
  intros Hx. destruct (scaled_bounds x Hx) as [Hl Hu].
  apply round_half_even_mono in Hl, Hu. rewrite round_half_even_Z in Hl, Hu.
  pose proof (two_power_pos (ilog2 x - 52)) as Hu0.
  unfold round_pos. rewrite Qred_correct.
  assert (He : (2 ^ ilog2 x == inject_Z (2 ^ 52) * 2 ^ (ilog2 x - 52))%Q).
  { rewrite Zpower_Qpower by lia. change (inject_Z 2) with 2%Q.
    rewrite <- Qpower_plus by discriminate.
    now replace (52 + (ilog2 x - 52)) with (ilog2 x) by lia. }
  assert (He' : (2 ^ (ilog2 x + 1) == inject_Z (2 ^ 53) * 2 ^ (ilog2 x - 52))%Q).
  { rewrite Zpower_Qpower by lia. change (inject_Z 2) with 2%Q.
    rewrite <- Qpower_plus by discriminate.
    now replace (53 + (ilog2 x - 52)) with (ilog2 x + 1) by lia. }
  rewrite He, He'. rewrite Zle_Qle in Hl, Hu.
  set (u := (2 ^ (ilog2 x - 52))%Q) in *.
  set (m := inject_Z (round_half_even (x / u))) in *.
  split; nra.
Qed.

Lemma round_pos_mono x y :
  (0 < x)%Q -> (x <= y)%Q -> (round_pos x <= round_pos y)%Q.
Proof.
  intros Hx Hxy. assert (Hy : (0 < y)%Q) by lra.
  pose proof (ilog2_mono x y Hx Hxy) as He.
  destruct (Z.eq_dec (ilog2 x) (ilog2 y)) as [E|NE].
  - unfold round_pos. rewrite !Qred_correct, E.
    pose proof (two_power_pos (ilog2 y - 52)) as Hu0.
    apply Qmult_le_compat_r; [|lra].
    rewrite <- Zle_Qle. apply round_half_even_mono.
    apply Qmult_le_compat_r; [assumption|].
    apply Qlt_le_weak, Qinv_lt_0_compat, Hu0.
  - destruct (round_pos_bounds x Hx) as [_ Hux].
    destruct (round_pos_bounds y Hy) as [Hly _].
    assert (Hp : (2 ^ (ilog2 x + 1) <= 2 ^ ilog2 y)%Q).
    { apply Qpower_le_compat_l; [lia|discriminate]. }
    lra.
Qed.

Lemma round_pos_pos x : (0 < x)%Q -> (0 < round_pos x)%Q.
Proof.
  intros Hx. destruct (round_pos_bounds x Hx) as [Hl _].
  pose proof (two_power_pos (ilog2 x)). lra.
Qed.

Lemma binary64_mono x y : (x <= y)%Q -> (binary64 x <= binary64 y)%Q.
Proof.
  intros Hxy. unfold binary64.
  destruct (Qcompare_spec x 0) as [Ex|Lx|Gx];
    destruct (Qcompare_spec y 0) as [Ey|Ly|Gy]; try lra.
  - pose proof (round_pos_pos y Gy). lra.
  - pose proof (round_pos_pos (- x) ltac:(lra)). lra.
  - pose proof (round_pos_mono (- y) (- x) ltac:(lra) ltac:(lra)). lra.
  - pose proof (round_pos_pos (- x) ltac:(lra)).
    pose proof (round_pos_pos y Gy). lra.
  - now apply round_pos_mono.
Qed.

Lemma round_pos_exact x k :
  (0 < x)%Q -> (x / 2 ^ (ilog2 x - 52) == inject_Z k)%Q -> (round_pos x == x)%Q.
Proof.
  intros Hx Hk. unfold round_pos. rewrite Qred_correct.
  rewrite (round_half_even_proper _ _ Hk), round_half_even_Z, <- Hk.
  field. apply Qpower_not_0. discriminate.
Qed.

Lemma ilog2_Z n : 0 < n -> ilog2 (inject_Z n) = Z.log2 n.
Proof.
  intros Hn. destruct (two_power_log2 n Hn) as [Hl Hu].
  apply ilog2_unique.
  - change 0%Q with (inject_Z 0). now rewrite <- Zlt_Qlt.
  - assumption.
  - now rewrite two_power_succ.
Qed.

Lemma round_pos_exact_Z n :
  0 < n <= 2 ^ 53 -> (round_pos (inject_Z n) == inject_Z n)%Q.
Proof.
  intros [Hn Hb].
  assert (Hx : (0 < inject_Z n)%Q)
    by (change 0%Q with (inject_Z 0); now rewrite <- Zlt_Qlt).
  pose proof (Z.log2_nonneg n) as H0.
  assert (He : Z.log2 n <= 53).
  { rewrite <- (Z.log2_pow2 53) by lia. now apply Z.log2_le_mono. }
  destruct (Z.eq_dec (Z.log2 n) 53) as [E|NE].
  - assert (n = 2 ^ 53).
    { destruct (Z.log2_spec n Hn) as [Hl _]. rewrite E in Hl. lia. }
    subst n. apply (round_pos_exact _ (2 ^ 52) Hx).
    rewrite ilog2_Z, E by assumption. reflexivity.
  - apply (round_pos_exact _ (n * 2 ^ (52 - Z.log2 n)) Hx).
    rewrite ilog2_Z by assumption.
    rewrite inject_Z_mult, Zpower_Qpower by lia. change (inject_Z 2) with 2%Q.
    replace (Z.log2 n - 52) with (- (52 - Z.log2 n)) by lia.
    rewrite Qpower_opp. field. apply Qpower_not_0. discriminate.
Qed.

Lemma binary64_exact n :
  Z.abs n <= 2 ^ 53 -> (binary64 (inject_Z n) == inject_Z n)%Q.
Proof.
  intros Hb. unfold binary64.
  destruct (Qcompare_spec (inject_Z n) 0) as [E|L|G].
  - now rewrite E.
  - assert (Hn : n < 0) by (rewrite Zlt_Qlt; exact L).
    rewrite <- inject_Z_opp, round_pos_exact_Z by lia.
    rewrite inject_Z_opp. ring.
  - assert (Hn : 0 < n) by (rewrite Zlt_Qlt; exact G).
    apply round_pos_exact_Z. lia.
Qed.

(** ** The code on the sample inputs *)

Lemma reversed_shuffles seed n : reversed seed n ≡ₚ seq 0 n.
Proof. unfold reversed. symmetry. apply Permutation_rev. Qed.

Example clean_scan_rows :
  Logic._clean_cloud (disk scan) scan_path []
  = Ok [[b "1.5"; b "2.5"; b "3.5"]; [b "4.5"; b "5.5"; b "6.5"]].
Proof. reflexivity. Qed.

Example half_of_three_rows :
  (λ '(_, w'), books w' !! Logic._xlsx_path scan_path)
    <$> Logic.transform binary64 reversed (disk clean_scan) scan_path []
          (Fin (1 # 2)) 3
  = Ok (Some [[Some (b "7"); Some (b "8"); Some (b "9")];
              [Some (b "4"); Some (b "5"); Some (b "6")]]).
Proof. vm_compute. reflexivity. Qed.

Example xlsx_path_scan : Logic._xlsx_path scan_path = b "/scans/section.xlsx".
Proof. reflexivity. Qed.

Example xlsx_path_double_slash :
  Logic._xlsx_path (b "/a//b.tar.gz") = b "/a/b.tar.xlsx".
Proof. reflexivity. Qed.

Example xlsx_path_no_extension : Logic._xlsx_path (b "cloud") = b "cloud.xlsx".
Proof. reflexivity. Qed.

Lemma comment_lines_add_no_row_on_scan :
  files (disk scan) !! scan_path = Some scan
  ∧ Logic._clean_cloud (disk scan) scan_path []
    = Logic.clean_lines (data_lines scan) []
  ∧ ∀ rows,
      Logic._clean_cloud (disk scan) scan_path [] = Ok rows →
      rows = [] ++ (cleaned <$> data_lines scan)
      ∧ Forall (λ l, is_comment l = false) (data_lines scan).
Proof.
  split; [reflexivity|].
  apply (comment_lines_add_no_row (disk scan) scan_path [] scan). reflexivity.
Defined.

Lemma cleaned_rows_in_file_order_on_scan :
  files (disk scan) !! scan_path = Some scan
  ∧ ∃ idxs : list nat,
      StronglySorted lt idxs
      ∧ take (length (@nil row))
          [[b "1.5"; b "2.5"; b "3.5"]; [b "4.5"; b "5.5"; b "6.5"]] = []
      ∧ Forall2 (λ i r, ∃ line, file_lines scan !! i = Some line
                                ∧ is_comment line = false
                                ∧ r = cleaned line)
          idxs
          (drop (length (@nil row))
             [[b "1.5"; b "2.5"; b "3.5"]; [b "4.5"; b "5.5"; b "6.5"]]).
Proof.
  split; [reflexivity|].
  apply (cleaned_rows_in_file_order (disk scan) scan_path [] scan);
    reflexivity.
Defined.

Lemma short_line_raises_IndexError_on_short_scan :
  files (disk short_scan) !! scan_path = Some short_scan
  ∧ Logic._clean_cloud (disk short_scan) scan_path [] = Raise IndexError
  ∧ Logic.transform binary64 reversed (disk short_scan) scan_path [] (Fin 1) 3
    = Raise IndexError.
Proof.
  split; [reflexivity|].
  apply (short_line_raises_IndexError binary64 reversed (disk short_scan)
           scan_path [] short_scan (Fin 1) 3); [reflexivity|].
  apply Exists_cons_tl, Exists_cons_hd. split; [reflexivity|].
  vm_compute. lia.
Defined.

Lemma third_field_without_crlf_on_scan :
  files (disk scan) !! scan_path = Some scan
  ∧ Forall2 (λ line r,
               ∃ z, split COMMA line !! 2%nat = Some z
                    ∧ r !! 2%nat = Some (replace_crlf z)
                    ∧ (third_field_bare r ↔ crlf_paired z = true)
                    ∧ (crlf_paired line = true → third_field_bare r))
      (data_lines scan)
      (drop (length (@nil row))
         [[b "1.5"; b "2.5"; b "3.5"]; [b "4.5"; b "5.5"; b "6.5"]]).
Proof.
  split; [reflexivity|].
  apply (third_field_without_crlf (disk scan) scan_path [] scan); reflexivity.
Defined.

Lemma rows_have_a_field_per_comma_on_scan :
  files (disk scan) !! scan_path = Some scan
  ∧ (∀ rows,
       Logic._clean_cloud (disk scan) scan_path [] = Ok rows →
       Forall2 (λ line r, length r = S (count_occ ascii_dec line COMMA)
                          ∧ (3 ≤ length r)%nat)
         (data_lines scan) (drop (length (@nil row)) rows))
  ∧ (∀ rows w',
       Logic.transform binary64 reversed (disk scan) scan_path [] (Fin 1) 3
         = Ok (rows, w') →
       ∃ sh, books w' !! Logic._xlsx_path scan_path = Some sh
             ∧ Forall (λ r, length r = max_list (length <$> rows)) sh).
Proof.
  split; [reflexivity|].
  apply (rows_have_a_field_per_comma binary64 reversed (disk scan) scan_path []
           scan (Fin 1) 3). reflexivity.
Defined.

Lemma sample_row_count_on_half :
  ((0 < 1 # 2)%Q ∧ (1 # 2 <= 1)%Q ∧ Z.of_nat 3 ≤ 2 ^ 53)
  ∧ ∃ w' sh,
      Logic._create_xlsx binary64 reversed (disk clean_scan) scan_path
        [[b "1"; b "2"; b "3"]; [b "4"; b "5"; b "6"]; [b "7"; b "8"; b "9"]]
        (Fin (1 # 2)) 3 = Ok w'
      ∧ books w' !! Logic._xlsx_path scan_path = Some sh
      ∧ py_int (py_round (float_mul binary64 (Fin (1 # 2))
                            (float_of_int binary64 (Z.of_nat 3))))
        = Ok (Z.of_nat (length sh))
      ∧ Z.of_nat (length sh)
        = round_half_away (binary64 ((1 # 2) * inject_Z (Z.of_nat 3))).
Proof.
  assert (H : (0 < 1 # 2)%Q ∧ (1 # 2 <= 1)%Q ∧ Z.of_nat 3 ≤ 2 ^ 53).
  { split; [|split]; [lra|lra|lia]. }
  split; [exact H|]. destruct H as (H0 & H1 & HN).
  exact (sample_row_count binary64 reversed binary64_mono binary64_exact
           reversed_shuffles (disk clean_scan) scan_path
           [[b "1"; b "2"; b "3"]; [b "4"; b "5"; b "6"]; [b "7"; b "8"; b "9"]]
           (1 # 2) 3 H0 H1 HN).
Defined.

Lemma sample_is_without_replacement_on_half :
  ((0 < 1 # 2)%Q ∧ (1 # 2 <= 1)%Q ∧ Z.of_nat 3 ≤ 2 ^ 53)
  ∧ ∃ w' sh sub,
      Logic._create_xlsx binary64 reversed (disk clean_scan) scan_path
        [[b "1"; b "2"; b "3"]; [b "4"; b "5"; b "6"]; [b "7"; b "8"; b "9"]]
        (Fin (1 # 2)) 3 = Ok w'
      ∧ books w' !! Logic._xlsx_path scan_path = Some sh
      ∧ sub ⊆+ [[b "1"; b "2"; b "3"]; [b "4"; b "5"; b "6"];
                [b "7"; b "8"; b "9"]]
      ∧ Forall (λ r, r ∈ [[b "1"; b "2"; b "3"]; [b "4"; b "5"; b "6"];
                          [b "7"; b "8"; b "9"]]) sub
      ∧ sh = pd.fill 3 <$> sub
      ∧ sh ⊆+ pd.DataFrame [[b "1"; b "2"; b "3"]; [b "4"; b "5"; b "6"];
                            [b "7"; b "8"; b "9"]].
Proof.
  assert (H : (0 < 1 # 2)%Q ∧ (1 # 2 <= 1)%Q ∧ Z.of_nat 3 ≤ 2 ^ 53).
  { split; [|split]; [lra|lra|lia]. }
  split; [exact H|]. destruct H as (H0 & H1 & HN).
  exact (sample_is_without_replacement binary64 reversed binary64_mono binary64_exact
           reversed_shuffles (disk clean_scan) scan_path
           [[b "1"; b "2"; b "3"]; [b "4"; b "5"; b "6"]; [b "7"; b "8"; b "9"]]
           (1 # 2) 3 H0 H1 HN).
Defined.

Lemma full_fraction_keeps_every_row_on_clean_scan :
  files (disk clean_scan) !! scan_path = Some clean_scan
  ∧ ∃ w' sh,
      Logic.transform binary64 reversed (disk clean_scan) scan_path [] (Fin 1) 3
        = Ok (cleaned <$> file_lines clean_scan, w')
      ∧ books w' !! Logic._xlsx_path scan_path = Some sh
      ∧ length sh = length (file_lines clean_scan)
      ∧ sh ≡ₚ (λ r : row, Some <$> r) <$> (cleaned <$> file_lines clean_scan).
Proof.
  split; [reflexivity|].
  apply (full_fraction_keeps_every_row binary64 reversed binary64_mono binary64_exact
           reversed_shuffles (disk clean_scan) scan_path clean_scan 1 3).
  - reflexivity.
  - repeat constructor.
  - reflexivity.
  - discriminate.
Defined.

Example validate_rejects_words :
  Logic.validate_subsample decimal_literal (b "abc") = None.
Proof. reflexivity. Qed.

Example validate_rejects_nothing :
  Logic.validate_subsample decimal_literal [] = None.
Proof. reflexivity. Qed.

Example validate_rejects_zero :
  Logic.validate_subsample decimal_literal (b "0") = None.
Proof. reflexivity. Qed.

Example validate_rejects_above_one :
  Logic.validate_subsample decimal_literal (b "1.5") = None.
Proof. reflexivity. Qed.

Example validate_rejects_negative :
  Logic.validate_subsample decimal_literal (b "-0.2") = None.
Proof. reflexivity. Qed.

Example validate_accepts_one :
  Logic.validate_subsample decimal_literal (b "1.0") = Some (Fin 1).
Proof. reflexivity. Qed.

Example validate_accepts_half :
  Logic.validate_subsample decimal_literal (b "0.5") = Some (Fin (1 # 2)).
Proof. reflexivity. Qed.

(** The scenario of two noise lines and five data lines, fraction "1.0":
    five rows, in the order of the shuffle, no line ending left. *)
Example five_rows_at_full_fraction :
  (λ '(_, w'), books w' !! Logic._xlsx_path scan_path)
    <$> Logic.transform binary64 reversed (disk five_rows) scan_path []
          (Fin 1) 3
  = Ok (Some [[Some (b "13"); Some (b "14"); Some (b "15")];
              [Some (b "10"); Some (b "11"); Some (b "12")];
              [Some (b "7"); Some (b "8"); Some (b "9")];
              [Some (b "4"); Some (b "5"); Some (b "6")];
              [Some (b "1"); Some (b "2"); Some (b "3")]]).
Proof. vm_compute. reflexivity. Qed.

Example xlsx_path_directory : Logic._xlsx_path (b "/scans/") = b "/scans/.xlsx".
Proof. reflexivity. Qed.

Lemma xlsx_path_replaces_extension_on_scan :
  posixpath.split scan_path = (b "/scans", b "section.txt")
  ∧ posixpath.splitext (b "section.txt") = (b "section", b ".txt")
  ∧ posixpath.split (Logic._xlsx_path scan_path)
    = (b "/scans", b "section.xlsx")
  ∧ posixpath.splitext (b "section.xlsx") = (b "section", b ".xlsx").
Proof.
  split; [reflexivity|]. split; [reflexivity|].
  destruct (xlsx_path_replaces_extension scan_path) as (_ & Hsplit & Hext).
  split; [exact Hsplit|]. apply Hext.
  apply Exists_cons_hd. discriminate.
Defined.

(** The size of the sample is taken from the rounded product: the float
    of 0.15 is below 0.15, its product with 10 rounds to the float 1.5,
    and [round] makes 2 of it. *)
Example sample_size_of_rounded_product :
  py_int (py_round (float_mul binary64 (Fin (binary64 (15 # 100)))
                      (float_of_int binary64 10))) = Ok 2
  ∧ round_half_away (binary64 (15 # 100) * 10) = 1.
Proof. split; reflexivity. Qed.

(** * Further properties *)

(** ** Lines and fields *)

Lemma split_nonempty sep s : split sep s ≠ [].
Proof.
  destruct s as [|c s]; cbn [split]; [done|].
  case_decide; [done|]. by destruct (split sep s).
Qed.

Lemma join_fields_split sep s : join_fields sep (split sep s) = s.
Proof.
  induction s as [|c s IH]; [done|]. cbn [split]. case_decide as Hc.
  - subst c. cbn [join_fields].
    pose proof (split_nonempty sep s) as Hne.
    destruct (split sep s) as [|f fs]; [done|]. by rewrite IH.
  - pose proof (split_nonempty sep s) as Hne.
    destruct (split sep s) as [|f fs]; [done|].
    cbn [join_fields] in *. destruct fs as [|g fs]; by rewrite <- IH.
Qed.

Lemma join_fields_lookup sep fields i f :
  fields !! i = Some f →
  ∃ pre suf, join_fields sep fields = pre ++ f ++ suf.
Proof.
  revert i. induction fields as [|g fields IH]; intros i Hi; [done|].
  destruct i as [|i]; cbn in Hi.
  - injection Hi as ->. exists []. cbn [join_fields app].
    destruct fields as [|h fields]; [exists []; by rewrite app_nil_r|].
    by eexists.
  - destruct (IH i Hi) as (pre & suf & E).
    destruct fields as [|h fields]; [done|].
    cbn [join_fields] in *. rewrite E.
    exists (g ++ sep :: pre), suf. by rewrite <- app_assoc.
Qed.

Lemma file_lines_concat content : concat (file_lines content) = content.
Proof.
  induction content as [|c rest IH]; [done|]. cbn [file_lines].
  case_decide.
  - cbn. by rewrite IH.
  - destruct (file_lines rest) as [|l ls]; cbn in *; by rewrite <- IH.
Qed.

Lemma file_lines_nil content : file_lines content = [] → content = [].
Proof. intros E. by rewrite <- (file_lines_concat content), E. Qed.

(** A newline is the last character of its line. *)
Lemma file_lines_newline_last content :
  Forall (λ l, ∀ pre post, l = pre ++ LF :: post → post = [])
    (file_lines content).
Proof.
  induction content as [|c rest IH]; cbn [file_lines]; [constructor|].
  assert (Hone : ∀ pre post, [c] = pre ++ LF :: post → post = []).
  { intros [|d [|e pre]] post E; cbn in E; by simplify_eq. }
  case_decide as Hc.
  - by constructor.
  - destruct (file_lines rest) as [|l ls]; [by repeat constructor|].
    inversion IH as [|? ? Hl Hls]; subst. constructor; [|done].
    intros [|d pre] post E; cbn in E; simplify_eq. by eapply Hl.
Qed.

Lemma closed_cons c a : closed (c :: a) → c ≠ LF → a ≠ [] ∧ closed a.
Proof.
  intros [?|Hl] Hc; [done|]. destruct a as [|d a]; cbn in Hl; [congruence|].
  split; [done|]. by right.
Qed.

Lemma file_lines_app a rest :
  closed a → file_lines (a ++ rest) = file_lines a ++ file_lines rest.
Proof.
  induction a as [|c a IH]; intros Ha; [done|].
  cbn [file_lines app]. case_decide as Hc.
  - rewrite IH; [done|]. destruct Ha as [?|Hl]; [done|].
    destruct a as [|d a]; [by left|by right].
  - destruct (closed_cons _ _ Ha Hc) as [Hne Ha']. rewrite (IH Ha').
    destruct (file_lines a) as [|l ls] eqn:E; [|done].
    by apply file_lines_nil in E.
Qed.

Lemma clean_lines_app lines1 lines2 container :
  Logic.clean_lines (lines1 ++ lines2) container
  = Logic.clean_lines lines1 container ≫= Logic.clean_lines lines2.
Proof.
  revert container. induction lines1 as [|l lines1 IH]; intros container.
  - done.
  - cbn [Logic.clean_lines app].
    destruct (Logic.clean_line l container) as [c'|e]; [apply IH|done].
Qed.

Lemma replace_crlf_id s : LF ∉ s → replace_crlf s = s.
Proof.
  induction s as [|c|c d s IH1 IH2] using bytes_pair_ind; [done..|].
  intros Hn. cbn [replace_crlf]. rewrite decide_False.
  - f_equal. apply IH2. intros Hin. apply Hn. by apply list_elem_of_further.
  - intros [_ ->]. apply Hn, list_elem_of_further, list_elem_of_here.
Qed.

Lemma replace_crlf_terminator s : LF ∉ s → replace_crlf (s ++ [CR; LF]) = s.
Proof.
  induction s as [|c s IH]; intros Hn; [done|].
  assert (Hs : LF ∉ s) by (intros Hin; apply Hn; by apply list_elem_of_further).
  cbn [app replace_crlf].
  destruct (s ++ [CR; LF]) as [|d t] eqn:E; [by destruct s|].
  rewrite decide_False.
  - by rewrite IH.
  - intros [_ ->]. destruct s as [|e s']; cbn in E; simplify_eq.
    apply Hs, list_elem_of_here.
Qed.

Lemma replace_crlf_bare_newline s :
  LF ∉ s → last s ≠ Some CR → replace_crlf (s ++ [LF]) = s ++ [LF].
Proof.
  induction s as [|c s IH]; intros Hn Hl; [done|].
  assert (Hs : LF ∉ s) by (intros Hin; apply Hn; by apply list_elem_of_further).
  cbn [app replace_crlf].
  destruct (s ++ [LF]) as [|d t] eqn:E; [by destruct s|].
  rewrite decide_False.
  - rewrite IH; [done..|].
    destruct s; [done|by rewrite last_cons_cons in Hl].
  - intros [-> ->]. destruct s as [|e s']; cbn in E; simplify_eq.
    apply Hs, list_elem_of_here.
Qed.

Lemma field_newline_last line i z :
  (∀ pre post, line = pre ++ LF :: post → post = []) →
  split COMMA line !! i = Some z →
  ∀ pre post, z = pre ++ LF :: post → post = [].
Proof.
  intros Hline Hz pre post ->.
  destruct (join_fields_lookup COMMA _ _ _ Hz) as (p & suf & E).
  rewrite join_fields_split in E.
  assert (Hnil : post ++ suf = []).
  { apply (Hline (p ++ pre)). rewrite E. by rewrite <- !app_assoc. }
  by apply app_eq_nil in Hnil as [-> _].
Qed.

(** On a field whose only newline, if any, is its last character, the
    replacement drops a final ['\r\n'] or nothing, and leaves no pair. *)
Lemma replace_crlf_field z :
  (∀ pre post, z = pre ++ LF :: post → post = []) →
  (replace_crlf z = z ∨ z = replace_crlf z ++ [CR; LF])
  ∧ replace_crlf (replace_crlf z) = replace_crlf z.
Proof.
  intros Hz. destruct (decide (LF ∈ z)) as [Hin|Hn].
  - apply list_elem_of_split_l in Hin as (s & post & -> & Hs).
    rewrite (Hz s post eq_refl). clear Hz post.
    destruct (decide (last s = Some CR)) as [Hl|Hl].
    + apply last_Some in Hl as [s' ->].
      assert (Hs' : LF ∉ s').
      { intros Hin. apply Hs, elem_of_app. by left. }
      rewrite <- app_assoc. cbn [app].
      rewrite (replace_crlf_terminator _ Hs'), (replace_crlf_id _ Hs').
      split; [by right|done].
    + rewrite !(replace_crlf_bare_newline _ Hs Hl). split; [by left|done].
  - rewrite !(replace_crlf_id _ Hn). split; [by left|done].
Qed.

Lemma data_lines_newline_last content :
  Forall (λ l, ∀ pre post, l = pre ++ LF :: post → post = [])
    (data_lines content).
Proof.
  apply Forall_forall. intros l Hl.
  apply list_elem_of_filter in Hl as [_ Hl]. revert l Hl.
  exact (proj1 (Forall_forall _ _) (file_lines_newline_last content)).
Qed.

Lemma last_field_terminator (head z k : bytes) :
  head ++ COMMA :: z = k ++ [CR; LF] → ∃ z', z = z' ++ [CR; LF].
Proof.
  intros E. destruct z as [|a z1 _] using rev_ind.
  - rewrite (cons_middle CR k [LF]), app_assoc in E.
    apply app_inj_tail in E as [_ [=]].
  - destruct z1 as [|c z2 _] using rev_ind.
    + change (head ++ COMMA :: [] ++ [a]) with (head ++ [COMMA; a]) in E.
      rewrite (cons_middle COMMA head [a]), app_assoc in E.
      rewrite (cons_middle CR k [LF]), app_assoc in E.
      apply app_inj_tail in E as [E _]. apply app_inj_tail in E as [_ [=]].
    + exists z2.
      rewrite (app_comm_cons (z2 ++ [c]) [a] COMMA), app_assoc in E.
      rewrite (cons_middle CR k [LF]), app_assoc in E.
      apply app_inj_tail in E as [E ->].
      rewrite (app_comm_cons z2 [c] COMMA), app_assoc in E.
      apply app_inj_tail in E as [_ ->]. by rewrite <- app_assoc.
Qed.

(** A line of three fields that ends in ['\r\n'] is the text line of its
    cleaned row. *)
Lemma text_line_cleaned line :
  (∀ pre post, line = pre ++ LF :: post → post = []) →
  length (split COMMA line) = 3%nat →
  [CR; LF] `suffix_of` line →
  text_line (cleaned line) = line.
Proof.
  intros Hline Hlen [k Hk]. unfold text_line, cleaned.
  pose proof (join_fields_split COMMA line) as Hjoin.
  destruct (split COMMA line) as [|f0 [|f1 [|z [|? ?]]]] eqn:E; try done.
  cbn [join_fields] in Hjoin. cbn [alter list_alter join_fields].
  destruct (last_field_terminator (f0 ++ COMMA :: f1) z k) as [z' ->].
  { rewrite <- Hk, <- Hjoin. by rewrite <- app_assoc. }
  assert (Hz' : LF ∉ z').
  { intros Hin. apply list_elem_of_split in Hin as (p & q & ->).
    assert (Hq : q ++ [CR; LF] = []); [|by destruct q].
    eapply (field_newline_last line 2 _ Hline); [by rewrite E|].
    by rewrite <- app_assoc. }
  rewrite (replace_crlf_terminator _ Hz'). rewrite <- Hjoin.
  rewrite <- app_assoc. cbn [app]. by rewrite <- app_assoc.
Qed.

(** ** More on the input cleaner *)

(** X1: for a file in which every line is a data line of three fields
    ended by ['\r\n'], cleaning loses nothing but the line endings:
    writing each cleaned row as a text line gives the file back. *)
Theorem cleaned_rows_give_the_file_back w filepath content :
  files w !! filepath = Some content →
  Forall (λ line, is_comment line = false
                  ∧ length (split COMMA line) = 3%nat
                  ∧ [CR; LF] `suffix_of` line)
    (file_lines content) →
  ∃ rows,
    Logic._clean_cloud w filepath [] = Ok rows
    ∧ concat (text_line <$> rows) = content.
Proof.
  intros Hf Hall.
  assert (Hd : data_lines content = file_lines content).
  { apply filter_all. eapply Forall_impl; [exact Hall|]. by intros l []. }
  exists (cleaned <$> file_lines content). split.
  - rewrite (clean_cloud_spec _ _ _ _ Hf), Hd, decide_True; [done|].
    eapply Forall_impl; [exact Hall|]. intros l (_ & Hl & _).
    unfold well_formed. lia.
  - rewrite <- (file_lines_concat content) at 2. f_equal.
    rewrite <- list_fmap_compose.
    transitivity (id <$> file_lines content); [|apply list_fmap_id].
    apply list_fmap_ext. intros i l Hl%list_elem_of_lookup_2.
    pose proof (file_lines_newline_last content) as Hnl.
    rewrite Forall_forall in Hall, Hnl.
    destruct (Hall l Hl) as (_ & Hlen & Hsuf). cbn.
    by apply text_line_cleaned; [apply Hnl|..].
Qed.

(** X2: the cleaner alters the third field only: a cleaned row has as
    many fields as its line, every field but the third is the raw field,
    and the raw fields joined by commas are the line. *)
Theorem other_fields_are_raw w filepath container content rows :
  files w !! filepath = Some content →
  Logic._clean_cloud w filepath container = Ok rows →
  Forall2 (λ line r,
             join_fields COMMA (split COMMA line) = line
             ∧ length r = length (split COMMA line)
             ∧ ∀ i, i ≠ 2%nat → r !! i = split COMMA line !! i)
    (data_lines content) (drop (length container) rows).
Proof.
  intros Hf Hrows.
  destruct (clean_cloud_inv _ _ _ _ _ Hf Hrows) as [_ ->].
  rewrite drop_app_length. apply Forall2_fmap_r, Forall_Forall2_diag.
  apply Forall_forall. intros line _. cbn. unfold cleaned.
  split; [apply join_fields_split|]. split; [apply length_alter|].
  intros i Hi. by apply list_lookup_alter_ne.
Qed.

(** X3: on the third field of a line of a file the replacement removes a
    final ['\r\n'] or nothing, and the cleaned field holds no ['\r\n']
    pair any more (cleaning it again changes nothing). *)
Theorem third_field_loses_one_terminator
    w filepath container content rows :
  files w !! filepath = Some content →
  Logic._clean_cloud w filepath container = Ok rows →
  Forall2 (λ line r,
             ∃ z z', split COMMA line !! 2%nat = Some z
                     ∧ r !! 2%nat = Some z'
                     ∧ (z' = z ∨ z = z' ++ [CR; LF])
                     ∧ replace_crlf z' = z')
    (data_lines content) (drop (length container) rows).
Proof.
  intros Hf Hrows.
  destruct (clean_cloud_inv _ _ _ _ _ Hf Hrows) as [Hall ->].
  rewrite drop_app_length. apply Forall2_fmap_r, Forall_Forall2_diag.
  pose proof (data_lines_newline_last content) as Hnl.
  rewrite Forall_forall in Hall, Hnl. apply Forall_forall. intros line Hl.
  destruct (cleaned_third_field line (Hall line Hl)) as (z & Hz & Hcz).
  destruct (replace_crlf_field z) as [Hcase Hfix].
  { by eapply field_newline_last; [apply Hnl|]. }
  exists z, (replace_crlf z). by repeat split.
Qed.

(** X4: a container that is not empty is kept in front: the cleaner
    returns it followed by what it returns for an empty container, and
    fails exactly when it fails for an empty container. *)
Theorem container_is_kept_in_front w filepath container :
  Logic._clean_cloud w filepath container
  = (λ rows, container ++ rows) <$> Logic._clean_cloud w filepath [].
Proof.
  unfold Logic._clean_cloud, open_rb.
  destruct (files w !! filepath) as [content|]; [|done]. cbn [mbind result_bind].
  rewrite !clean_lines_spec by apply file_lines_nonempty.
  by case_decide.
Qed.

(** X5: cleaning a file that is one content followed by another is
    cleaning the first and then, into the same container, the second,
    provided the first content is empty or ends with a newline. *)
Theorem cleaning_a_concatenation w path1 path2 path12 c1 c2 container :
  files w !! path1 = Some c1 →
  files w !! path2 = Some c2 →
  files w !! path12 = Some (c1 ++ c2) →
  closed c1 →
  Logic._clean_cloud w path12 container
  = Logic._clean_cloud w path1 container ≫= Logic._clean_cloud w path2.
Proof.
  intros H1 H2 H12 Hc. unfold Logic._clean_cloud, open_rb.
  rewrite H1, H2, H12. cbn [mbind result_bind].
  by rewrite file_lines_app, clean_lines_app.
Qed.

(** X6: a blank line (a bare ['\n'] or ['\r\n'] after a complete line or
    at the start of the file) makes the cleaner raise [IndexError],
    wherever it stands, also as the last line. *)
Theorem blank_line_raises_IndexError w filepath container pre blank post :
  files w !! filepath = Some (pre ++ blank ++ LF :: post) →
  closed pre →
  blank = [] ∨ blank = [CR] →
  Logic._clean_cloud w filepath container = Raise IndexError.
Proof.
  intros Hf Hpre Hblank. rewrite (clean_cloud_spec _ _ _ _ Hf).
  rewrite decide_False; [done|]. intros Hall.
  assert (Hin : blank ++ [LF] ∈ data_lines (pre ++ blank ++ LF :: post)).
  { unfold data_lines. rewrite file_lines_app by done.
    apply list_elem_of_filter. split; [by destruct Hblank as [-> | ->]|].
    apply elem_of_app. right.
    destruct Hblank as [-> | ->]; cbn; apply list_elem_of_here. }
  pose proof (proj1 (Forall_forall _ _) Hall _ Hin) as Hw.
  unfold well_formed in Hw.
  destruct Hblank as [-> | ->]; vm_compute in Hw; lia.
Qed.

(** ** More on the output path *)

Lemma xlsx_path_split filepath :
  posixpath.split (Logic._xlsx_path filepath)
  = ((posixpath.split filepath).1,
     (posixpath.splitext (posixpath.split filepath).2).1 ++ b ".xlsx").
Proof.
  destruct (split_shape filepath) as [Hh Ht].
  unfold Logic._xlsx_path.
  destruct (posixpath.split filepath) as [h t]. cbn [fst snd] in *.
  apply join_split; [done|].
  intros Hin. apply elem_of_app in Hin as [Hin|Hin].
  - by apply splitext_root_elem in Hin.
  - unfold b in Hin. cbn in Hin.
    repeat (apply elem_of_cons in Hin as [Hin|Hin]; [discriminate|]).
    by apply elem_of_nil in Hin.
Qed.

Lemma join_suffix a name : name `suffix_of` posixpath.join a name.
Proof.
  unfold posixpath.join. repeat case_match.
  - done.
  - by exists a.
  - exists (a ++ [SLASH]). by rewrite <- app_assoc.
Qed.

Lemma rfind_found c s1 s2 :
  c ∈ s2 → Z.of_nat (length s1) ≤ rfind c (s1 ++ s2).
Proof.
  intros Hin. induction s1 as [|d s1 IH]; cbn [rfind app length].
  - destruct (rfind_spec c s2) as [[_ Hn]|(? & ? & _ & _ & ->)]; [done|lia].
  - rewrite decide_False by lia. lia.
Qed.

(** X7: the output path always ends in [.xlsx], and it is the input path
    itself only when the extension of the input is already [.xlsx]: in no
    other case does the writer aim at the file it read. *)
Theorem xlsx_path_is_another_file filepath :
  b ".xlsx" `suffix_of` Logic._xlsx_path filepath
  ∧ (Logic._xlsx_path filepath = filepath →
     (posixpath.splitext (posixpath.split filepath).2).2 = b ".xlsx").
Proof.
  split.
  - unfold Logic._xlsx_path. destruct (posixpath.split filepath) as [h t].
    etrans; [|apply join_suffix]. by eexists.
  - intros E. pose proof (xlsx_path_split filepath) as Hs. rewrite E in Hs.
    pose proof (splitext_app (posixpath.split filepath).2) as Ha.
    destruct (posixpath.split filepath) as [h t]. cbn [fst snd] in *.
    injection Hs as Hs. rewrite <- Ha in Hs at 1.
    by apply app_inv_head in Hs.
Qed.

(** X8: converting a converted path changes nothing, as soon as the file
    name has a character other than a dot before its extension. *)
Theorem xlsx_path_idempotent filepath :
  Exists (λ c, c ≠ DOT)
    (posixpath.splitext (posixpath.split filepath).2).1 →
  Logic._xlsx_path (Logic._xlsx_path filepath) = Logic._xlsx_path filepath.
Proof.
  intros Hroot. destruct (split_shape filepath) as [_ Ht].
  unfold Logic._xlsx_path at 1. rewrite xlsx_path_split. cbn [fst snd].
  rewrite xlsx_name_extension by (done || by apply splitext_root_elem).
  cbn [fst]. unfold Logic._xlsx_path.
  by destruct (posixpath.split filepath).
Qed.

(** X9: what the writer replaces is the last extension only: it is empty,
    or one dot followed by characters that are neither a dot nor a slash
    ([a.tar.gz] becomes [a.tar.xlsx]). *)
Theorem replaced_extension_has_one_dot p :
  (posixpath.splitext p).2 = []
  ∨ ∃ e, (posixpath.splitext p).2 = DOT :: e ∧ (DOT ∉ e) ∧ (SLASH ∉ e).
Proof.
  unfold posixpath.splitext. case_decide as Hlt; [|by left].
  case_match; [|by left]. right. cbn [snd].
  destruct (rfind_spec DOT p) as [[Hd _]|(s1 & s2 & -> & Hn & Hd)].
  - destruct (rfind_spec SLASH p) as [[Hs _]|(? & ? & _ & _ & Hs)]; lia.
  - rewrite Hd, Nat2Z.id, drop_app_length. exists s2.
    split; [done|]. split; [done|]. intros Hin.
    pose proof (rfind_found SLASH (s1 ++ [DOT]) s2 Hin) as Hge.
    rewrite <- app_assoc in Hge. cbn [app] in Hge.
    rewrite length_app in Hge. cbn [length] in Hge. lia.
Qed.

(** ** More on the sampler and on [transform] *)

Lemma round_half_away_mono p q :
  (p <= q)%Q → round_half_away p ≤ round_half_away q.
Proof.
  intros Hpq. unfold round_half_away.
  destruct (Qle_bool 0 p) eqn:Ep; destruct (Qle_bool 0 q) eqn:Eq.
  - apply Qfloor_resp_le. lra.
  - apply Qle_bool_iff in Ep.
    assert (Hq : ¬ (0 <= q)%Q) by (rewrite <- Qle_bool_iff; congruence).
    exfalso. apply Hq. lra.
  - apply Qle_bool_iff in Eq.
    assert (Hp : ¬ (0 <= p)%Q) by (rewrite <- Qle_bool_iff; congruence).
    apply Qnot_le_lt in Hp.
    transitivity 0.
    + change 0 with (Qceiling 0%Q). apply Qceiling_resp_le. lra.
    + change 0 with (Qfloor 0%Q). apply Qfloor_resp_le. lra.
  - apply Qceiling_resp_le. lra.
Qed.


Section More_sampling.

Variable rnd : Q → Q.
Variable permutation : Z → nat → list nat.

Hypothesis rnd_mono : ∀ p q, (p <= q)%Q → (rnd p <= rnd q)%Q.
Hypothesis rnd_exact :
  ∀ n, Z.abs n ≤ 2 ^ 53 → (rnd (inject_Z n) == inject_Z n)%Q.
Hypothesis permutation_shuffles : ∀ seed n, permutation seed n ≡ₚ seq 0 n.


(** X12: a dataset without rows gives a workbook without rows, for every
    finite fraction: a file that is empty or holds noise lines only is no
    error. *)
Theorem no_data_line_gives_an_empty_sheet w filepath content q seed :
  files w !! filepath = Some content →
  data_lines content = [] →
  ∃ w',
    Logic.transform rnd permutation w filepath [] (Fin q) seed = Ok ([], w')
    ∧ books w' !! Logic._xlsx_path filepath = Some [].
Proof.
  intros Hf Hd. unfold Logic.transform.
  rewrite (clean_cloud_spec _ _ _ _ Hf), Hd, decide_True by constructor.
  cbn [mbind result_bind fmap list_fmap app].
  unfold Logic._create_xlsx, pd.sample. cbn [pd.DataFrame fmap list_fmap length].
  unfold float_of_int, float_mul. rewrite int_round.
  assert (H0 : (rnd (inject_Z 0) == 0)%Q) by (apply rnd_exact; lia).
  assert (Hn : round_half_away (rnd (q * rnd (inject_Z (Z.of_nat 0)))) = 0).
  { rewrite (round_half_away_proper _ (inject_Z 0)); [apply round_half_away_Z|].
    change (Z.of_nat 0) with 0.
    apply Qeq_trans with (rnd (inject_Z 0)); [|exact H0].
    apply (rnd_proper rnd rnd_mono). rewrite H0. ring. }
  rewrite Hn. cbn. eexists. split; [done|]. apply lookup_insert_eq.
Qed.


(** X14: of two validated fractions the smaller gives, for the same
    dataset and the same seed, a sheet that is the beginning of the sheet
    of the larger: the samples are nested and the row count grows with
    the fraction. *)
Theorem smaller_fraction_gives_a_prefix w filepath data q1 q2 seed :
  (0 < q1)%Q → (q1 <= q2)%Q → (q2 <= 1)%Q →
  Z.of_nat (length data) ≤ 2 ^ 53 →
  ∃ w1 w2 sh1 sh2,
    Logic._create_xlsx rnd permutation w filepath data (Fin q1) seed = Ok w1
    ∧ Logic._create_xlsx rnd permutation w filepath data (Fin q2) seed = Ok w2
    ∧ books w1 !! Logic._xlsx_path filepath = Some sh1
    ∧ books w2 !! Logic._xlsx_path filepath = Some sh2
    ∧ sh1 `prefix_of` sh2.
Proof.
  intros H0 H12 H1 HN.
  destruct (create_xlsx_spec rnd permutation rnd_mono rnd_exact
              permutation_shuffles w filepath data q1 seed)
    as (_ & sh1 & Hc1 & Hb1 & Hp1); [lra|lra|done|].
  destruct (create_xlsx_spec rnd permutation rnd_mono rnd_exact
              permutation_shuffles w filepath data q2 seed)
    as (_ & sh2 & Hc2 & Hb2 & Hp2); [lra|lra|done|].
  eexists _, _, sh1, sh2. repeat (split; [done|]).
  rewrite (picked_fmap _ _ _ Hp1), (picked_fmap _ _ _ Hp2).
  set (N := Z.of_nat (length data)) in *.
  assert (Hn : round_half_away (rnd (q1 * inject_Z N))
               ≤ round_half_away (rnd (q2 * inject_Z N))).
  { apply round_half_away_mono, rnd_mono.
    assert (0 <= inject_Z N)%Q
      by (change 0%Q with (inject_Z 0); rewrite <- Zle_Qle; lia).
    nra. }
  rewrite !fmap_take.
  set (n1 := Z.to_nat (round_half_away (rnd (q1 * inject_Z N)))).
  set (n2 := Z.to_nat (round_half_away (rnd (q2 * inject_Z N)))).
  set (l := _ <$> permutation seed (length data)).
  replace (take n1 l) with (take n1 (take n2 l))
    by (rewrite take_take; f_equal; lia).
  apply prefix_take.
Qed.

End More_sampling.

(** ** The application *)

Lemma validated_is_true float_of_str text value :
  Logic.validate_subsample float_of_str text = Some value →
  float_bool value = true.
Proof.
  unfold Logic.validate_subsample.
  destruct (float_of_str text) as [v|]; [|done].
  destruct (float_lt (Fin 0) v && float_le v (Fin 1)) eqn:E; [|done].
  intros [= <-]. apply float_in_range in E as (q & -> & Hq & _).
  cbn. apply negb_true_iff, not_true_iff_false.
  intros Hz%Qeq_bool_iff. lra.
Qed.

(** X15: [start] runs [transform], on the picked file and with the parsed
    fraction, exactly when both dialogs are accepted and the text
    validates: the test [if self.value] turns no validated fraction down.
    A dismissed dialog does nothing; a text that does not validate shows
    the warning and nothing else: no file is read or written and there is
    no second prompt. *)
Theorem start_runs_transform_when_validated
    float_of_str rnd permutation w points0 selected entered seed :
  PointCloudTransformer.start float_of_str rnd permutation w points0
    selected entered seed
  = match selected, entered with
    | Some filepath, Some text =>
        match Logic.validate_subsample float_of_str text with
        | Some value =>
            (λ '(points1, w'), PointCloudTransformer.State points1 w' false)
              <$> Logic.transform rnd permutation w filepath points0 value
                    seed
        | None => Ok (PointCloudTransformer.State points0 w true)
        end
    | _, _ => Ok (PointCloudTransformer.State points0 w false)
    end.
Proof.
  unfold PointCloudTransformer.start.
  destruct selected as [filepath|]; [|done].
  destruct entered as [text|]; [|done].
  destruct (Logic.validate_subsample float_of_str text) as [value|] eqn:E;
    [|done].
  rewrite (validated_is_true _ _ _ E).
  by destruct (Logic.transform _ _ _ _ _ _ _) as [[? ?]|].
Qed.

Section Application.

Variable float_of_str : bytes → option pyfloat.
Variable rnd : Q → Q.
Variable permutation : Z → nat → list nat.

Hypothesis rnd_mono : ∀ p q, (p <= q)%Q → (rnd p <= rnd q)%Q.
Hypothesis rnd_exact :
  ∀ n, Z.abs n ≤ 2 ^ 53 → (rnd (inject_Z n) == inject_Z n)%Q.
Hypothesis permutation_shuffles : ∀ seed n, permutation seed n ≡ₚ seq 0 n.


End Application.

Section Seeds.

Variable rnd : Q → Q.
Variable permutation : Z → nat → list nat.

Hypothesis rnd_mono : ∀ p q, (p <= q)%Q → (rnd p <= rnd q)%Q.
Hypothesis rnd_exact :
  ∀ n, Z.abs n ≤ 2 ^ 53 → (rnd (inject_Z n) == inject_Z n)%Q.
Hypothesis permutation_shuffles : ∀ seed n, permutation seed n ≡ₚ seq 0 n.

(** X17: the seed that [random.randint] draws decides which rows are
    taken and in which order, not how many: for a validated fraction two
    seeds give sheets of the same length, and for the fraction 1.0 sheets
    that are rearrangements of each other. *)
Theorem seed_decides_the_draw_only w filepath data q seed1 seed2 :
  (0 < q)%Q → (q <= 1)%Q → Z.of_nat (length data) ≤ 2 ^ 53 →
  ∃ w1 w2 sh1 sh2,
    Logic._create_xlsx rnd permutation w filepath data (Fin q) seed1 = Ok w1
    ∧ Logic._create_xlsx rnd permutation w filepath data (Fin q) seed2
      = Ok w2
    ∧ books w1 !! Logic._xlsx_path filepath = Some sh1
    ∧ books w2 !! Logic._xlsx_path filepath = Some sh2
    ∧ length sh1 = length sh2
    ∧ ((q == 1)%Q → sh1 ≡ₚ sh2).
Proof.
  intros Hq0 Hq1 HN.
  destruct (create_xlsx_spec rnd permutation rnd_mono rnd_exact
              permutation_shuffles w filepath data q seed1 Hq0 Hq1 HN)
    as (Hle & sh1 & Hc1 & Hb1 & Hp1).
  destruct (create_xlsx_spec rnd permutation rnd_mono rnd_exact
              permutation_shuffles w filepath data q seed2 Hq0 Hq1 HN)
    as (_ & sh2 & Hc2 & Hb2 & Hp2).
  eexists _, _, sh1, sh2. repeat (split; [done|]).
  set (n := Z.to_nat _) in *.
  assert (Hlen : ∀ seed, length (permutation seed (length data)) = length data).
  { intros seed.
    by rewrite (Permutation_length (permutation_shuffles seed _)), length_seq. }
  split.
  - rewrite <- (Forall2_length _ _ _ Hp1), <- (Forall2_length _ _ _ Hp2).
    by rewrite !length_take, !Hlen.
  - intros Hq.
    assert (Hn : n = length data).
    { subst n.
      rewrite (round_half_away_proper _ (inject_Z (Z.of_nat (length data)))).
      - rewrite round_half_away_Z. lia.
      - apply Qeq_trans with (rnd (inject_Z (Z.of_nat (length data)))).
        + apply (rnd_proper rnd rnd_mono). rewrite Hq. ring.
        + apply rnd_exact. lia. }
    rewrite Hn, take_ge in Hp1, Hp2 by (rewrite Hlen; lia).
    transitivity (pd.DataFrame data).
    + eapply picked_Permutation; [exact Hp1|].
      rewrite DataFrame_length. apply permutation_shuffles.
    + symmetry. eapply picked_Permutation; [exact Hp2|].
      rewrite DataFrame_length. apply permutation_shuffles.
Qed.

End Seeds.

(** ** The further properties on the sample inputs *)

Lemma cleaned_rows_give_the_file_back_on_clean_scan :
  files (disk clean_scan) !! scan_path = Some clean_scan
  ∧ ∃ rows,
      Logic._clean_cloud (disk clean_scan) scan_path [] = Ok rows
      ∧ concat (text_line <$> rows) = clean_scan.
Proof.
  split; [reflexivity|].
  apply (cleaned_rows_give_the_file_back (disk clean_scan) scan_path
           clean_scan); [reflexivity|].
  repeat (apply Forall_cons; split;
          [split; [reflexivity|split; [reflexivity|]]|]);
    [by exists (b "1,2,3")|by exists (b "4,5,6")|by exists (b "7,8,9")|].
  apply Forall_nil_2.
Defined.

Lemma other_fields_are_raw_on_scan :
  files (disk scan) !! scan_path = Some scan
  ∧ Forall2 (λ line r,
               join_fields COMMA (split COMMA line) = line
               ∧ length r = length (split COMMA line)
               ∧ ∀ i, i ≠ 2%nat → r !! i = split COMMA line !! i)
      (data_lines scan)
      (drop (length (@nil row))
         [[b "1.5"; b "2.5"; b "3.5"]; [b "4.5"; b "5.5"; b "6.5"]]).
Proof.
  split; [reflexivity|].
  apply (other_fields_are_raw (disk scan) scan_path [] scan); reflexivity.
Defined.

Lemma third_field_loses_one_terminator_on_scan :
  files (disk scan) !! scan_path = Some scan
  ∧ Forall2 (λ line r,
               ∃ z z', split COMMA line !! 2%nat = Some z
                       ∧ r !! 2%nat = Some z'
                       ∧ (z' = z ∨ z = z' ++ [CR; LF])
                       ∧ replace_crlf z' = z')
      (data_lines scan)
      (drop (length (@nil row))
         [[b "1.5"; b "2.5"; b "3.5"]; [b "4.5"; b "5.5"; b "6.5"]]).
Proof.
  split; [reflexivity|].
  apply (third_field_loses_one_terminator (disk scan) scan_path [] scan);
    reflexivity.
Defined.

Lemma cleaning_a_concatenation_on_shelf :
  closed scan
  ∧ Logic._clean_cloud shelf (b "/scans/ab.txt") []
    = Logic._clean_cloud shelf (b "/scans/a.txt") []
      ≫= Logic._clean_cloud shelf (b "/scans/b.txt").
Proof.
  assert (Hc : closed scan) by (right; reflexivity).
  split; [exact Hc|].
  apply (cleaning_a_concatenation shelf (b "/scans/a.txt") (b "/scans/b.txt")
           (b "/scans/ab.txt") scan clean_scan []); try reflexivity.
  exact Hc.
Defined.

Lemma blank_line_raises_IndexError_on_blank_scan :
  files (disk blank_scan) !! scan_path
    = Some ((b "1,2,3" ++ [CR; LF]) ++ [CR] ++ LF :: [])
  ∧ Logic._clean_cloud (disk blank_scan) scan_path [] = Raise IndexError.
Proof.
  split; [reflexivity|].
  apply (blank_line_raises_IndexError (disk blank_scan) scan_path []
           (b "1,2,3" ++ [CR; LF]) [CR] []).
  - reflexivity.
  - right. reflexivity.
  - right. reflexivity.
Defined.

Lemma xlsx_path_idempotent_on_scan :
  Logic._xlsx_path (Logic._xlsx_path scan_path) = Logic._xlsx_path scan_path.
Proof.
  apply (xlsx_path_idempotent scan_path).
  apply Exists_cons_hd. discriminate.
Defined.



Lemma no_data_line_gives_an_empty_sheet_on_noise_scan :
  files (disk noise_scan) !! scan_path = Some noise_scan
  ∧ ∃ w',
      Logic.transform binary64 reversed (disk noise_scan) scan_path []
        (Fin (1 # 2)) 3 = Ok ([], w')
      ∧ books w' !! Logic._xlsx_path scan_path = Some [].
Proof.
  split; [reflexivity|].
  apply (no_data_line_gives_an_empty_sheet binary64 reversed binary64_mono
           binary64_exact (disk noise_scan) scan_path noise_scan (1 # 2) 3);
    reflexivity.
Defined.


Lemma smaller_fraction_gives_a_prefix_on_halves :
  ∃ w1 w2 sh1 sh2,
    Logic._create_xlsx binary64 reversed (disk clean_scan) scan_path
      [[b "1"; b "2"; b "3"]; [b "4"; b "5"; b "6"]; [b "7"; b "8"; b "9"]]
      (Fin (1 # 2)) 3 = Ok w1
    ∧ Logic._create_xlsx binary64 reversed (disk clean_scan) scan_path
        [[b "1"; b "2"; b "3"]; [b "4"; b "5"; b "6"]; [b "7"; b "8"; b "9"]]
        (Fin 1) 3 = Ok w2
    ∧ books w1 !! Logic._xlsx_path scan_path = Some sh1
    ∧ books w2 !! Logic._xlsx_path scan_path = Some sh2
    ∧ sh1 `prefix_of` sh2.
Proof.
  apply (smaller_fraction_gives_a_prefix binary64 reversed binary64_mono
           binary64_exact reversed_shuffles (disk clean_scan) scan_path
           [[b "1"; b "2"; b "3"]; [b "4"; b "5"; b "6"]; [b "7"; b "8"; b "9"]]
           (1 # 2) 1 3); [lra|lra|lra|].
  cbn. lia.
Defined.


Lemma seed_decides_the_draw_only_on_two_seeds :
  ∃ w1 w2 sh1 sh2,
    Logic._create_xlsx binary64 reversed (disk clean_scan) scan_path
      [[b "1"; b "2"; b "3"]; [b "4"; b "5"; b "6"]] (Fin 1) 3 = Ok w1
    ∧ Logic._create_xlsx binary64 reversed (disk clean_scan) scan_path
        [[b "1"; b "2"; b "3"]; [b "4"; b "5"; b "6"]] (Fin 1) 8 = Ok w2
    ∧ books w1 !! Logic._xlsx_path scan_path = Some sh1
    ∧ books w2 !! Logic._xlsx_path scan_path = Some sh2
    ∧ length sh1 = length sh2
    ∧ ((1 == 1)%Q → sh1 ≡ₚ sh2).
Proof.
  apply (seed_decides_the_draw_only binary64 reversed binary64_mono
           binary64_exact reversed_shuffles (disk clean_scan) scan_path
           [[b "1"; b "2"; b "3"]; [b "4"; b "5"; b "6"]] 1 3 8); [lra|lra|].
  cbn. lia.
Defined.
